(** * Blindfold chess: speech-to-SAN interpretation and the confirmation dialogue

    Shallow embedding of [src/voice/sanFromSpeech.js] and of the dialogue
    code of [src/App.jsx].

    A JavaScript string is modelled as a list of 8-bit code units, read as
    the code points U+0000..U+00FF (Latin-1), which is closed under
    [toLowerCase].  [undefined] (an array read out of range) is [None]. *)

From Stdlib Require Import Ascii String.
From Stdlib Require Import List Bool Arith ZArith Lia.
Import ListNotations.

Local Open Scope list_scope.

(** ** JavaScript strings *)

Definition jsstring := list ascii.

(** A literal. *)
Definition str (s : string) : jsstring := list_ascii_of_string s.

Definition codeOf (c : ascii) : nat := nat_of_ascii c.

Definition inRange (lo hi : nat) (c : ascii) : bool :=
  (lo <=? codeOf c) && (codeOf c <=? hi).

Definition jsstring_eqb (a b : jsstring) : bool :=
  if list_eq_dec ascii_dec a b then true else false.

Definition isEmpty (s : jsstring) : bool :=
  match s with [] => true | _ => false end.

(** [String.prototype.toLowerCase] on U+0000..U+00FF: A-Z and the
    letters U+00C0..U+00DE other than the multiplication sign U+00D7. *)
Definition lowerChar (c : ascii) : ascii :=
  if inRange 65 90 c
     || (inRange 192 222 c && negb (codeOf c =? 215))
  then ascii_of_nat (codeOf c + 32)
  else c.

Definition toLowerCase (s : jsstring) : jsstring := map lowerChar s.

(** The class [\s] of regular expressions, also what [trim] removes:
    TAB, LF, VT, FF, CR, SPACE and U+00A0. *)
Definition isSpace (c : ascii) : bool :=
  inRange 9 13 c || (codeOf c =? 32) || (codeOf c =? 160).

Definition space : ascii := " "%char.
Definition hyphen : ascii := "-"%char.

(** [s.replace(/-/g, " ")] *)
Definition replaceHyphens (s : jsstring) : jsstring :=
  map (fun c => if ascii_dec c hyphen then space else c) s.

(** [s.replace(/\s+/g, " ")]: every maximal run of white space becomes one
    space.  [inRun] tells that the previous character was white space. *)
Fixpoint collapseFrom (inRun : bool) (s : jsstring) : jsstring :=
  match s with
  | [] => []
  | c :: r =>
      if isSpace c
      then (if inRun then collapseFrom true r else space :: collapseFrom true r)
      else c :: collapseFrom false r
  end.

Definition collapseSpaces (s : jsstring) : jsstring := collapseFrom false s.

Fixpoint trimStart (s : jsstring) : jsstring :=
  match s with
  | [] => []
  | c :: r => if isSpace c then trimStart r else s
  end.

Definition trimEnd (s : jsstring) : jsstring := rev (trimStart (rev s)).

Definition trim (s : jsstring) : jsstring := trimEnd (trimStart s).

(** [s.replace(/\s+/g, empty)]: white space is removed. *)
Definition removeSpaces (s : jsstring) : jsstring :=
  filter (fun c => negb (isSpace c)) s.

Fixpoint startsWith (s w : jsstring) {struct w} : bool :=
  match w, s with
  | [], _ => true
  | _ :: _, [] => false
  | a :: w', b :: s' => if ascii_dec a b then startsWith s' w' else false
  end.

(** [s.includes(w)] *)
Fixpoint includes (s w : jsstring) : bool :=
  startsWith s w ||
  match s with
  | [] => false
  | _ :: r => includes r w
  end.

(** [s.split(" ")]; the result is never empty: the empty string gives one
    empty part. *)
Fixpoint split (s : jsstring) : list jsstring :=
  match s with
  | [] => [[]]
  | c :: r =>
      if ascii_dec c space then [] :: split r
      else match split r with
           | h :: t => (c :: h) :: t
           | [] => [[c]]
           end
  end.

(** [Array.prototype.join(" ")] *)
Fixpoint join (l : list jsstring) : jsstring :=
  match l with
  | [] => []
  | [t] => t
  | t :: r => t ++ space :: join r
  end.

(** ** Arrays and Maps *)

(** [tokens[i]] for an integer index. *)
Definition at_ (tokens : list jsstring) (i : Z) : option jsstring :=
  if (i <? 0)%Z then None else nth_error tokens (Z.to_nat i).

(** [tokens.includes(w)] *)
Definition arrIncludes (tokens : list jsstring) (w : jsstring) : bool :=
  existsb (jsstring_eqb w) tokens.

(** [tokens.findIndex(p)], [-1] when no element satisfies [p]. *)
Fixpoint findIndexFrom (p : jsstring -> bool) (tokens : list jsstring) (i : Z) : Z :=
  match tokens with
  | [] => (-1)%Z
  | t :: r => if p t then i else findIndexFrom p r (i + 1)%Z
  end.

Definition findIndex (p : jsstring -> bool) (tokens : list jsstring) : Z :=
  findIndexFrom p tokens 0%Z.

Definition JsMap := list (jsstring * jsstring).

Fixpoint mapGet (m : JsMap) (k : jsstring) : option jsstring :=
  match m with
  | [] => None
  | (k', v) :: r => if jsstring_eqb k' k then Some v else mapGet r k
  end.

Definition mapHas (m : JsMap) (k : jsstring) : bool :=
  match mapGet m k with Some _ => true | None => false end.

(** [m.has(t)] for a possibly undefined key. *)
Definition mapHasOpt (m : JsMap) (k : option jsstring) : bool :=
  match k with Some k => mapHas m k | None => false end.

(** [m.get(k)] spliced into a template literal, after [m.has(k)]. *)
Definition mapGetStr (m : JsMap) (k : jsstring) : jsstring :=
  match mapGet m k with Some v => v | None => str "undefined" end.

(** ** sanFromSpeech.js *)

Definition numberWords : JsMap :=
  [ (str "one", str "1"); (str "two", str "2"); (str "three", str "3");
    (str "four", str "4"); (str "five", str "5"); (str "six", str "6");
    (str "seven", str "7"); (str "eight", str "8") ].

Definition pieceWords : JsMap :=
  [ (str "knight", str "N"); (str "bishop", str "B"); (str "rook", str "R");
    (str "queen", str "Q"); (str "king", str "K") ].

Definition promoWords : JsMap :=
  [ (str "queen", str "Q"); (str "rook", str "R"); (str "bishop", str "B");
    (str "knight", str "N") ].

(** The class [[a-z0-9]]. *)
Definition isLowerAlnum (c : ascii) : bool :=
  inRange 97 122 c || inRange 48 57 c.

Definition normToken (t : jsstring) : jsstring :=
  let s := trim (toLowerCase t) in
  let s := filter isLowerAlnum s in
  if mapHas numberWords s then mapGetStr numberWords s else s.

(** [/^[a-h]$/.test(t)] on a string; [false] on [undefined]. *)
Definition isFile (t : option jsstring) : bool :=
  match t with
  | Some [c] => inRange 97 104 c
  | _ => false
  end.

(** [/^[1-8]$/.test(t)] on a string; [false] on [undefined]. *)
Definition isRank (t : option jsstring) : bool :=
  match t with
  | Some [c] => inRange 49 56 c
  | _ => false
  end.

Definition orEmpty (t : option jsstring) : jsstring :=
  match t with Some s => s | None => [] end.

Definition toSquare (file rank : option jsstring) : jsstring :=
  if negb (isFile file) || negb (isRank rank) then []
  else orEmpty file ++ orEmpty rank.

(** [raw.toLowerCase().replace(/-/g, " ").replace(/\s+/g, " ").trim()] *)
Definition cleanedOf (raw : jsstring) : jsstring :=
  trim (collapseSpaces (replaceHyphens (toLowerCase raw))).

(** [cleaned.split(" ").map(normToken).filter(Boolean)] *)
Definition tokensOf (cleaned : jsstring) : list jsstring :=
  filter (fun t => negb (isEmpty t)) (map normToken (split cleaned)).

(** The castling tests on the cleaned string, in the order of the source. *)
Definition castling (cleaned : jsstring) : option jsstring :=
  if includes cleaned (str "castle")
     && (includes cleaned (str "king side") || includes cleaned (str "kingside")
         || includes cleaned (str "short"))
  then Some (str "O-O")
  else if includes cleaned (str "castle")
     && (includes cleaned (str "queen side") || includes cleaned (str "queenside")
         || includes cleaned (str "long"))
  then Some (str "O-O-O")
  else if jsstring_eqb cleaned (str "o o") || jsstring_eqb cleaned (str "oo")
          || jsstring_eqb cleaned (str "o-o")
  then Some (str "O-O")
  else if jsstring_eqb cleaned (str "o o o") || jsstring_eqb cleaned (str "ooo")
          || jsstring_eqb cleaned (str "o-o-o")
  then Some (str "O-O-O")
  else None.

Definition hasMateOf (tokens : list jsstring) : bool :=
  arrIncludes tokens (str "checkmate") || arrIncludes tokens (str "mate").

Definition hasCheckOf (tokens : list jsstring) : bool :=
  arrIncludes tokens (str "check") || hasMateOf tokens.

Definition isPromoteWord (t : option jsstring) : bool :=
  match t with
  | Some t => jsstring_eqb t (str "promote") || jsstring_eqb t (str "promotion")
              || jsstring_eqb t (str "promotes")
  | None => false
  end.

(** One turn of the inner loop: [if (promoWords.has(p)) promo = `=${...}`]. *)
Definition promoInner (tokens : list jsstring) (promo : jsstring) (j : nat) : jsstring :=
  match at_ tokens (Z.of_nat j) with
  | Some p => if mapHas promoWords p then str "=" ++ mapGetStr promoWords p else promo
  | None => promo
  end.

(** One turn of the outer loop: [j] runs from [i] below [min(i + 4, length)]. *)
Definition promoOuter (tokens : list jsstring) (promo : jsstring) (i : nat) : jsstring :=
  if isPromoteWord (at_ tokens (Z.of_nat i))
  then fold_left (promoInner tokens) (seq i (Nat.min (i + 4) (length tokens) - i)) promo
  else promo.

(** The promotion scan, lines 70-78. *)
Definition promoScan (tokens : list jsstring) : jsstring :=
  fold_left (promoOuter tokens) (seq 0 (length tokens)) [].

Definition isCaptureWord (t : jsstring) : bool :=
  jsstring_eqb t (str "takes") || jsstring_eqb t (str "capture")
  || jsstring_eqb t (str "captures") || jsstring_eqb t (str "x").

(** [if (hasMate) san += "#"; else if (hasCheck) san += "+";] *)
Definition withSuffix (tokens : list jsstring) (san : jsstring) : jsstring :=
  if hasMateOf tokens then san ++ str "#"
  else if hasCheckOf tokens then san ++ str "+"
  else san.

(** One turn of the destination loop of the piece shape. *)
Definition destStep (tokens : list jsstring) (dest : jsstring) (i : nat) : jsstring :=
  if isFile (at_ tokens (Z.of_nat i)) && isRank (at_ tokens (Z.of_nat i + 1))
  then toSquare (at_ tokens (Z.of_nat i)) (at_ tokens (Z.of_nat i + 1))
  else dest.

(** The loop of lines 120-123: [i] runs from 0 below [tokens.length - 1]. *)
Definition destScan (tokens : list jsstring) : jsstring :=
  fold_left (destStep tokens) (seq 0 (length tokens - 1)) [].

(** The second [replace] of the fallback removes what is outside
    [[a-z0-9x\+\#\=\-o]]; with the flag [i] the class also holds A-Z. *)
Definition isFallbackChar (c : ascii) : bool :=
  inRange 97 122 c || inRange 65 90 c || inRange 48 57 c
  || (codeOf c =? 43) || (codeOf c =? 35) || (codeOf c =? 61) || (codeOf c =? 45).

Definition fallbackOf (cleaned : jsstring) : jsstring :=
  filter isFallbackChar (removeSpaces cleaned).

(** The pawn push shape, lines 84-95. *)
Definition pawnPush (tokens : list jsstring) (promo : jsstring) : jsstring :=
  let san := toSquare (at_ tokens 0) (at_ tokens 1) in
  let promo :=
    if isEmpty promo && (3 <=? length tokens) && mapHasOpt promoWords (at_ tokens 2)
    then str "=" ++ mapGetStr promoWords (orEmpty (at_ tokens 2))
    else promo in
  withSuffix tokens (san ++ promo).

(** The piece shape, lines 116-130, for a piece word found at [pieceIdx]. *)
Definition pieceMove (tokens : list jsstring) (promo : jsstring)
    (isCapture : bool) (pieceIdx : Z) : jsstring :=
  let P := mapGetStr pieceWords (orEmpty (at_ tokens pieceIdx)) in
  let dest := destScan tokens in
  if isEmpty dest then []
  else withSuffix tokens (P ++ (if isCapture then str "x" else []) ++ dest ++ promo).

(** The test of the pawn push shape, line 84. *)
Definition pawnPushShape (tokens : list jsstring) : bool :=
  (2 <=? length tokens) && isFile (at_ tokens 0) && isRank (at_ tokens 1).

(** The test of the pawn capture shape, lines 98-107, [if (sq)] included. *)
Definition pawnCaptureShape (tokens : list jsstring) : bool :=
  let takesIdx := findIndex isCaptureWord tokens in
  let isCapture := negb (takesIdx =? -1)%Z in
  (4 <=? length tokens) && isFile (at_ tokens 0) && isCapture
  && isFile (at_ tokens (takesIdx + 1)) && isRank (at_ tokens (takesIdx + 2))
  && negb (isEmpty (toSquare (at_ tokens (takesIdx + 1)) (at_ tokens (takesIdx + 2)))).

(** Everything of [sanFromSpeech] after the castling tests: the shapes tried
    on the tokens in their fixed order, then the fallback on [cleaned]. *)
Definition interpret (cleaned : jsstring) (tokens : list jsstring) : jsstring :=
  let promo := promoScan tokens in
  let takesIdx := findIndex isCaptureWord tokens in
  let isCapture := negb (takesIdx =? -1)%Z in
  if pawnPushShape tokens
  then pawnPush tokens promo
  else if pawnCaptureShape tokens
  then
    let fromFile := orEmpty (at_ tokens 0) in
    let sq := toSquare (at_ tokens (takesIdx + 1)) (at_ tokens (takesIdx + 2)) in
    withSuffix tokens (fromFile ++ str "x" ++ sq ++ promo)
  else
    let pieceIdx := findIndex (mapHas pieceWords) tokens in
    if negb (pieceIdx =? -1)%Z
    then pieceMove tokens promo isCapture pieceIdx
    else fallbackOf cleaned.

Definition sanFromSpeech (raw : jsstring) : jsstring :=
  if isEmpty raw then []
  else
    let cleaned := cleanedOf raw in
    match castling cleaned with
    | Some san => san
    | None => interpret cleaned (tokensOf cleaned)
    end.

(** ** App.jsx: the confirmation classifier and the engine reply *)

Module Cmd.
Inductive t := CONFIRM | CANCEL | REPEAT | UNKNOWN.
End Cmd.

Definition yes : list jsstring :=
  [ str "confirm"; str "yes"; str "yeah"; str "yep"; str "ok"; str "okay";
    str "go"; str "do it"; str "accept" ].

Definition no : list jsstring :=
  [ str "cancel"; str "no"; str "nope"; str "stop"; str "reject"; str "discard" ].

Definition rep : list jsstring :=
  [ str "repeat"; str "say again"; str "again"; str "what"; str "pardon" ].

(** [list.some((w) => t.includes(w))] *)
Definition someIncluded (t : jsstring) (words : list jsstring) : bool :=
  existsb (includes t) words.

Definition interpretConfirmCommand (raw : jsstring) : Cmd.t :=
  let t := toLowerCase raw in
  if someIncluded t yes then Cmd.CONFIRM
  else if someIncluded t no then Cmd.CANCEL
  else if someIncluded t rep then Cmd.REPEAT
  else Cmd.UNKNOWN.

Record MoveObj := {
  from : jsstring;
  to : jsstring;
  promotion : option jsstring
}.

(** [s.slice(a, b)] for [0 <= a <= b]. *)
Definition slice (s : jsstring) (a b : nat) : jsstring := firstn (b - a) (skipn a s).

Definition uciToMove (uci : jsstring) : option MoveObj :=
  if isEmpty uci || jsstring_eqb uci (str "(none)") then None
  else Some {| from := slice uci 0 2;
               to := slice uci 2 4;
               promotion := if 5 <=? length uci
                            then option_map (fun c => [c]) (nth_error uci 4)
                            else None |}.

(** ** App.jsx: the dialogue *)

Module Mode.
Inductive t := MOVE | CONFIRM.
End Mode.

(** The texts given to [setStatus]. *)
Inductive Status :=
| StSayYourMove              (* Say your move (SAN). *)
| StUnsupported              (* SpeechRecognition is not supported in this browser. *)
| StEngineNoMoves            (* Engine has no moves. *)
| StMyMove (san : jsstring)  (* My move: san. Your move. *)
| StCheckmate                (* Checkmate. *)
| StDraw                     (* Draw. *)
| StSpeechError              (* Speech error. Click Start. *)
| StEngineThinking           (* Engine thinking... *)
| StIllegal                  (* Illegal move. Say a SAN move like: e4, Nf3, O-O. *)
| StYouPlayed (san : jsstring)       (* You played: san. Engine thinking... *)
| StListening                (* Listening... Say your move. *)
| StHeardEmpty (raw : jsstring)      (* Heard: raw -> (empty). Try again. *)
| StHeard (raw san : jsstring)       (* Heard: raw -> san. Say confirm or cancel. *)
| StConfirm (san : jsstring)         (* Confirm: san. Say confirm or cancel. *)
| StCanceled                 (* Canceled. Say your move. *)
| StHeardNew (san : jsstring)        (* Heard a new move: san. Say confirm or cancel. *)
| StNewGame.                 (* New game. Say your move. *)

(** What the dialogue does to its collaborators, in order. *)
Inductive Effect :=
| Spoken (text : jsstring)        (* speak(text) *)
| Started                         (* r.start() on a new recognizer *)
| Stopped                         (* recogRef.current.stop() *)
| MoveTried (san : jsstring)      (* chessRef.current.move(san, { sloppy: true }) *)
| Posted (command : jsstring).    (* engineRef.current.postMessage(command) *)

(** [busy] and [pendingSan] are constants of one call of [App]: the functions
    declared in that call, and the arrow functions they hand to the
    recognizer, read the values of that call, whatever [setBusy] and
    [setPendingSan] store afterwards for the next call. *)
Record Render := {
  r_busy : bool;
  r_pendingSan : jsstring
}.

(** The arrow function given to [startListeningInternal], by
    [startListeningForMove] or by [startListeningForConfirm] of a render. *)
Inductive Callback :=
| onMove (r : Render)
| onConfirm (r : Render).

Definition renderOfCallback (cb : Callback) : Render :=
  match cb with onMove r => r | onConfirm r => r end.

(** The collaborators of the dialogue: the move application (chess.js) and
    the support of speech recognition by the browser. *)
Class Collaborators := {
  Chess : Type;
  (** [new Chess()] *)
  newChess : Chess;
  (** [chess.move(san, { sloppy: true })]: the SAN of the move made and the
      position after it, or [None] for [null]; the position then stays. *)
  moveSan : Chess -> jsstring -> option (jsstring * Chess);
  (** [chess.move(moveObj)] *)
  moveObject : Chess -> MoveObj -> option (jsstring * Chess);
  isCheckmate : Chess -> bool;
  isDraw : Chess -> bool;
  fen : Chess -> jsstring;
  (** Whether [window.SpeechRecognition || window.webkitSpeechRecognition]
      is defined. *)
  SpeechRecognition : bool
}.

Section Dialogue.

Context {collaborators : Collaborators}.

Record State := mkState {
  chessRef : Chess;
  recogRef : option Callback;  (* onresult of recogRef.current *)
  retired : list Callback;     (* onresult of the recognizers made before it *)
  live : bool;                 (* its session was started, not stopped since,
                                  and has not answered *)
  moves : list jsstring;
  status : Status;
  busy : bool;
  listening : bool;
  mode : Mode.t;
  pendingSan : jsstring;
  effects : list Effect
}.

Definition set_chessRef c s := mkState c (recogRef s) (retired s) (live s) (moves s) (status s) (busy s) (listening s) (mode s) (pendingSan s) (effects s).
Definition set_recogRef r s := mkState (chessRef s) r (retired s) (live s) (moves s) (status s) (busy s) (listening s) (mode s) (pendingSan s) (effects s).
Definition set_retired l s := mkState (chessRef s) (recogRef s) l (live s) (moves s) (status s) (busy s) (listening s) (mode s) (pendingSan s) (effects s).
Definition set_live b s := mkState (chessRef s) (recogRef s) (retired s) b (moves s) (status s) (busy s) (listening s) (mode s) (pendingSan s) (effects s).
Definition setMoves m s := mkState (chessRef s) (recogRef s) (retired s) (live s) m (status s) (busy s) (listening s) (mode s) (pendingSan s) (effects s).
Definition setStatus t s := mkState (chessRef s) (recogRef s) (retired s) (live s) (moves s) t (busy s) (listening s) (mode s) (pendingSan s) (effects s).
Definition setBusy b s := mkState (chessRef s) (recogRef s) (retired s) (live s) (moves s) (status s) b (listening s) (mode s) (pendingSan s) (effects s).
Definition setListening b s := mkState (chessRef s) (recogRef s) (retired s) (live s) (moves s) (status s) (busy s) b (mode s) (pendingSan s) (effects s).
Definition setMode m s := mkState (chessRef s) (recogRef s) (retired s) (live s) (moves s) (status s) (busy s) (listening s) m (pendingSan s) (effects s).
Definition setPendingSan p s := mkState (chessRef s) (recogRef s) (retired s) (live s) (moves s) (status s) (busy s) (listening s) (mode s) p (effects s).
Definition emit e s := mkState (chessRef s) (recogRef s) (retired s) (live s) (moves s) (status s) (busy s) (listening s) (mode s) (pendingSan s) (effects s ++ [e]).

Definition speak (text : jsstring) (s : State) : State := emit (Spoken text) s.

(** Statements in sequence: [s ;> f ;> g] runs [f], then [g]. *)
Notation "s ;> f" := (f s) (at level 61, left associativity, only parsing).

Definition renderOf (s : State) : Render :=
  {| r_busy := busy s; r_pendingSan := pendingSan s |}.

(** The first call of [App], whose functions the engine handler keeps. *)
Definition firstRender : Render := {| r_busy := false; r_pendingSan := [] |}.

Definition stopListening (s : State) : State :=
  (match recogRef s with
   | Some _ => s ;> emit Stopped ;> set_live false
   | None => s
   end) ;> setListening false.

(** [const r = new SpeechRecognition(); recogRef.current = r]: the
    recognizer that [recogRef.current] held is no longer referred to, but it
    keeps its handlers and can still call them. *)
Definition newRecognizer (onResult : Callback) (s : State) : State :=
  s ;> set_retired (retired s ++ match recogRef s with Some cb => [cb] | None => [] end)
    ;> set_recogRef (Some onResult).

Definition startListeningInternal (onResult : Callback) (s : State) : State :=
  if negb SpeechRecognition then s
  else s ;> stopListening ;> newRecognizer onResult ;> set_live true ;> emit Started.

(** [engineRef.current] is the worker, or [null] without speech support. *)
Definition postMessage (command : jsstring) (s : State) : State :=
  if SpeechRecognition then emit (Posted command) s else s.

Definition requestEngineMove (s : State) : State :=
  s ;> setBusy true ;> setStatus StEngineThinking
    ;> postMessage (str "position fen " ++ fen (chessRef s))
    ;> postMessage (str "go depth 8").

Definition startListeningForMove (r : Render) (s : State) : State :=
  if r_busy r then s
  else s ;> setMode Mode.MOVE ;> setPendingSan [] ;> setStatus StListening
         ;> startListeningInternal (onMove r).

Definition startListeningForConfirm (r : Render) (s : State) : State :=
  if r_busy r then s
  else s ;> setStatus (StConfirm (r_pendingSan r))
         ;> startListeningInternal (onConfirm r).

Definition applyPlayerSan (r : Render) (san : jsstring) (s : State) : State :=
  if r_busy r then s
  else
    let s := emit (MoveTried san) s in
    match moveSan (chessRef s) san with
    | None =>
        s ;> setMode Mode.MOVE ;> setPendingSan [] ;> setStatus StIllegal
          ;> speak (str "Illegal move. Please try again.")
          ;> startListeningForMove r
    | Some (msan, chess) =>
        let s := s ;> set_chessRef chess ;> setMoves (moves s ++ [msan]) in
        if isCheckmate chess then s ;> setStatus StCheckmate ;> speak (str "Checkmate.")
        else if isDraw chess then s ;> setStatus StDraw ;> speak (str "Draw.")
        else s ;> setMode Mode.MOVE ;> setPendingSan []
               ;> setStatus (StYouPlayed msan)
               ;> speak (str "You played: " ++ msan ++ str ".")
               ;> requestEngineMove
    end.

(** The arrow function of [startListeningForMove]. *)
Definition moveResult (r : Render) (raw : jsstring) (s : State) : State :=
  let san := sanFromSpeech raw in
  if isEmpty san
  then s ;> setStatus (StHeardEmpty raw)
         ;> speak (str "I did not catch that. Please repeat.")
         ;> startListeningForMove r
  else s ;> setMode Mode.CONFIRM ;> setPendingSan san ;> setStatus (StHeard raw san)
         ;> speak (str "I heard " ++ san ++ str ". Confirm or cancel.")
         ;> startListeningForConfirm r.

(** The arrow function of [startListeningForConfirm]. *)
Definition confirmResult (r : Render) (raw : jsstring) (s : State) : State :=
  match interpretConfirmCommand raw with
  | Cmd.CONFIRM => s ;> stopListening ;> applyPlayerSan r (r_pendingSan r)
  | Cmd.CANCEL =>
      s ;> stopListening ;> setMode Mode.MOVE ;> setPendingSan []
        ;> setStatus StCanceled ;> speak (str "Canceled. Say your move.")
        ;> startListeningForMove r
  | Cmd.REPEAT =>
      s ;> speak (str "I heard " ++ r_pendingSan r ++ str ". Confirm or cancel.")
        ;> startListeningForConfirm r
  | Cmd.UNKNOWN =>
      let maybeSan := sanFromSpeech raw in
      if negb (isEmpty maybeSan)
      then s ;> setPendingSan maybeSan ;> setStatus (StHeardNew maybeSan)
             ;> speak (str "I heard " ++ maybeSan ++ str ". Confirm or cancel.")
             ;> startListeningForConfirm r
      else s ;> speak (str "Please say confirm or cancel.")
             ;> startListeningForConfirm r
  end.

Definition onresult (cb : Callback) (raw : jsstring) (s : State) : State :=
  match cb with
  | onMove r => moveResult r raw s
  | onConfirm r => confirmResult r raw s
  end.

Definition onerror (s : State) : State :=
  s ;> setListening false ;> setStatus StSpeechError
    ;> speak (str "Speech error. Please click Start.")
    ;> setMode Mode.MOVE ;> setPendingSan [].

Definition newGame (r : Render) (s : State) : State :=
  s ;> stopListening ;> set_chessRef newChess ;> setMoves [] ;> setBusy false
    ;> setMode Mode.MOVE ;> setPendingSan [] ;> setStatus StNewGame
    ;> speak (str "New game. Your move.")
    ;> startListeningForMove r.

(** [line.trim().split(/\s+/)]: a trimmed line has white space only
    between its parts. *)
Definition splitSpaces (line : jsstring) : list jsstring :=
  split (collapseSpaces (trim line)).

(** The engine handler [w.onmessage], set up once by the first render. *)
Definition onmessage (line : jsstring) (s : State) : State :=
  if isEmpty line then s
  else if includes line (str "uciok") then s
  else if startsWith line (str "bestmove") then
    let uci := match nth_error (splitSpaces line) 1 with
               | Some u => if isEmpty u then str "(none)" else u
               | None => str "(none)"
               end in
    match uciToMove uci with
    | None =>
        s ;> setBusy false ;> setStatus StEngineNoMoves ;> speak (str "I have no moves.")
          ;> startListeningForMove firstRender
    | Some moveObj =>
        let s :=
          match moveObject (chessRef s) moveObj with
          | Some (msan, chess) =>
              s ;> set_chessRef chess ;> setMoves (moves s ++ [msan])
                ;> setStatus (StMyMove msan)
                ;> speak (str "My move: " ++ msan ++ str ". Your move.")
          | None => s
          end in
        let s := setBusy false s in
        if isCheckmate (chessRef s) then s ;> setStatus StCheckmate ;> speak (str "Checkmate.")
        else if isDraw (chessRef s) then s ;> setStatus StDraw ;> speak (str "Draw.")
        else startListeningForMove firstRender s
    end
  else s.

(** The state after the first render and its effect. *)
Definition init : State :=
  {| chessRef := newChess; recogRef := None; retired := []; live := false; moves := [];
     status := if SpeechRecognition then StSayYourMove else StUnsupported;
     busy := false; listening := false; mode := Mode.MOVE; pendingSan := [];
     effects := if SpeechRecognition then [Posted (str "uci"); Posted (str "isready")]
                else [] |}.

(** What can happen to the component: the three buttons (a disabled button
    does nothing; a click runs the functions of the latest render), the
    events of the recognizers, a line from the engine.  Every recognizer
    keeps the handlers it was given: [stopListening] calls [stop()], which
    lets a recognizer still answer with what it heard, and no handler is
    ever taken off.  So the recognizer of [recogRef.current] can call its
    handlers at any time ([RecogResult], [RecogError]), and so can the
    [n]-th of the recognizers made before it ([RetiredResult],
    [RetiredError]).  The handlers [onstart] and [onend] are the same for
    all recognizers: [RecogStarted] and [RecogEnded] stand for any of
    them. *)
Inductive Event :=
| ClickNewGame
| ClickStart
| ClickStop
| RecogStarted
| RecogResult (transcript : jsstring)
| RecogError
| RecogEnded
| RetiredResult (n : nat) (transcript : jsstring)
| RetiredError (n : nat)
| EngineMessage (line : jsstring).

Definition step (s : State) (ev : Event) : State :=
  match ev with
  | ClickNewGame => if busy s then s else newGame (renderOf s) s
  | ClickStart =>
      if busy s || listening s then s else startListeningForMove (renderOf s) s
  | ClickStop => if listening s then stopListening s else s
  | RecogStarted =>
      match recogRef s with Some _ => setListening true s | None => s end
  | RecogResult raw =>
      match recogRef s with
      | Some cb => onresult cb raw (set_live false s)
      | None => s
      end
  | RecogError =>
      match recogRef s with Some _ => onerror (set_live false s) | None => s end
  | RecogEnded => setListening false s
  | RetiredResult n raw =>
      match nth_error (retired s) n with Some cb => onresult cb raw s | None => s end
  | RetiredError n =>
      match nth_error (retired s) n with Some _ => onerror s | None => s end
  | EngineMessage line => if SpeechRecognition then onmessage line s else s
  end.

Definition run (events : list Event) (s : State) : State :=
  fold_left step events s.

(** The dialogue invariant: a SAN is pending exactly in mode CONFIRM. *)
Definition pendingIffConfirm (s : State) : Prop :=
  pendingSan s <> [] <-> mode s = Mode.CONFIRM.

(** The recognizers made so far. *)
Definition recognizers (s : State) : list Callback :=
  retired s ++ match recogRef s with Some cb => [cb] | None => [] end.

(** Recognizers exist only with speech support, a started session is the
    one of [recogRef.current], and every callback was made by a render that
    was not busy. *)
Definition recognizersSound (s : State) : Prop :=
  (recognizers s <> [] -> SpeechRecognition = true) /\
  (live s = true -> recogRef s <> None) /\
  Forall (fun cb => r_busy (renderOfCallback cb) = false) (recognizers s).

(** An event comes in time when it is not the answer of a recognizer that
    was stopped or replaced: the recognizer of [recogRef.current] answers
    and starts only while its session runs, and the recognizers before it
    are silent. *)
Definition inTime (s : State) (ev : Event) : bool :=
  match ev with
  | RecogStarted | RecogResult _ | RecogError => live s
  | RetiredResult _ _ | RetiredError _ => false
  | _ => true
  end.

Fixpoint allInTime (events : list Event) (s : State) : Prop :=
  match events with
  | [] => True
  | ev :: events => inTime s ev = true /\ allInTime events (step s ev)
  end.

(** A running session exists only with speech support; its callback was
    made by a render that was not busy, and a confirm callback listens
    only in mode CONFIRM. *)
Definition sessionSound (s : State) : Prop :=
  live s = true ->
  SpeechRecognition = true /\
  exists cb, recogRef s = Some cb /\ r_busy (renderOfCallback cb) = false
             /\ (forall r, cb = onConfirm r -> mode s = Mode.CONFIRM).

Definition good (s : State) : Prop := pendingIffConfirm s /\ sessionSound s.

End Dialogue.

(** ** Notions used to state the properties *)

(** The SANs handed to the move application, in order. *)
Definition handedSans (effects : list Effect) : list jsstring :=
  flat_map (fun e => match e with MoveTried san => [san] | _ => [] end) effects.

(** [w] occurs in [s]. *)
Definition contains (s w : jsstring) : Prop :=
  exists pre post, s = pre ++ w ++ post.

(** Some word of the list occurs in [t]. *)
Definition matches (t : jsstring) (words : list jsstring) : Prop :=
  exists w, In w words /\ contains t w.

Definition files : list ascii := str "abcdefgh".
Definition ranks : list ascii := str "12345678".

(** The values the promotion suffix and the check suffix can take, and the
    piece letters. *)
Definition promos : list jsstring :=
  [ []; str "=Q"; str "=R"; str "=B"; str "=N" ].

Definition suffixes : list jsstring := [ []; str "+"; str "#" ].

Definition pieceLetters : list jsstring :=
  [ str "N"; str "B"; str "R"; str "Q"; str "K" ].

(** The promotion suffix of a pawn push: the one of the promotion scan,
    else the one of a piece word in third place. *)
Definition pushPromoOf (tokens : list jsstring) : jsstring :=
  if isEmpty (promoScan tokens) && mapHasOpt promoWords (at_ tokens 2)
  then str "=" ++ mapGetStr promoWords (orEmpty (at_ tokens 2))
  else promoScan tokens.

(** The check or mate suffix. *)
Definition suffixOf (tokens : list jsstring) : jsstring :=
  if hasMateOf tokens then str "#" else if hasCheckOf tokens then str "+" else [].

(** The tokens at [i] and [i + 1] are a file and a rank. *)
Definition pairAt (tokens : list jsstring) (i : Z) : Prop :=
  isFile (at_ tokens i) = true /\ isRank (at_ tokens (i + 1)) = true.

(** [i] is the place of the last such pair. *)
Definition lastPairAt (tokens : list jsstring) (i : Z) : Prop :=
  pairAt tokens i /\ forall j, (i < j)%Z -> ~ pairAt tokens j.

(** The first piece word of [tokens] is [w], at place [k]. *)
Definition firstPieceAt (tokens : list jsstring) (k : Z) (w : jsstring) : Prop :=
  at_ tokens k = Some w /\ mapHas pieceWords w = true /\
  forall j w', (j < k)%Z -> at_ tokens j = Some w' -> mapHas pieceWords w' = false.

(** The Phrase Normalizer: the tokens [sanFromSpeech] computes from a
    transcript (lines 46-50 and 64). *)
Definition normalize (raw : jsstring) : list jsstring :=
  tokensOf (cleanedOf raw).

(** A token as [normalize] leaves it: not empty, made of lowercase letters
    and digits, and not a number word. *)
Definition normalToken (t : jsstring) : Prop :=
  t <> [] /\ forallb isLowerAlnum t = true /\ mapHas numberWords t = false.

(** ** The syntax of a SAN token

    Castling; a pawn move or capture with an optional promotion; a piece
    move with an optional origin file, rank or square and an optional
    capture sign; each optionally followed by "+" or "#". *)

Definition isCharOf (set : jsstring) (c : ascii) : bool :=
  existsb (fun d => if ascii_dec c d then true else false) set.

Definition isSquare (s : jsstring) : bool :=
  match s with
  | [f; r] => inRange 97 104 f && inRange 49 56 r
  | _ => false
  end.

Definition dropCheck (s : jsstring) : jsstring :=
  match rev s with
  | c :: r => if isCharOf (str "+#") c then rev r else s
  | [] => s
  end.

Definition dropPromotion (s : jsstring) : jsstring :=
  match rev s with
  | p :: e :: r => if isCharOf (str "QRBN") p && isCharOf (str "=") e then rev r else s
  | _ => s
  end.

Definition dropCapture (s : jsstring) : jsstring :=
  match rev s with
  | c :: r => if isCharOf (str "x") c then rev r else s
  | [] => s
  end.

Definition isCastling (s : jsstring) : bool :=
  jsstring_eqb s (str "O-O") || jsstring_eqb s (str "O-O-O").

Definition isPawnMove (s : jsstring) : bool :=
  match dropPromotion s with
  | [f; r] => isSquare [f; r]
  | [f; x; g; r] => inRange 97 104 f && isCharOf (str "x") x && isSquare [g; r]
  | _ => false
  end.

Definition isOrigin (s : jsstring) : bool :=
  match s with
  | [] => true
  | [c] => inRange 97 104 c || inRange 49 56 c
  | _ => isSquare s
  end.

Definition isPieceMove (s : jsstring) : bool :=
  match s with
  | p :: rest =>
      isCharOf (str "KQRBN") p &&
      match rev rest with
      | r :: f :: o => isSquare [f; r] && isOrigin (dropCapture (rev o))
      | _ => false
      end
  | [] => false
  end.

Definition wellFormedSan (s : jsstring) : bool :=
  let body := dropCheck s in
  isCastling body || isPawnMove body || isPieceMove body.

(** ** A small collaborator to run the dialogue on

    The position is the list of the moves made; three SAN moves are legal at
    any time and the last of them mates. *)
Module Toy.

Definition legal : list jsstring := [str "e4"; str "Nf3"; str "Qxf7#"].

Definition move (c : list jsstring) (san : jsstring) : option (jsstring * list jsstring) :=
  if existsb (jsstring_eqb san) legal then Some (san, c ++ [san]) else None.

Definition moveTo (c : list jsstring) (m : MoveObj) : option (jsstring * list jsstring) :=
  if isSquare (from m) && isSquare (to m) then Some (to m, c ++ [to m]) else None.

Definition mated (c : list jsstring) : bool :=
  match rev c with
  | m :: _ => jsstring_eqb m (str "Qxf7#")
  | [] => false
  end.

Definition collaborators : Collaborators :=
  {| Chess := list jsstring;
     newChess := [];
     moveSan := move;
     moveObject := moveTo;
     isCheckmate := mated;
     isDraw := fun _ => false;
     fen := join;
     SpeechRecognition := true |}.

End Toy.

(** ** App.jsx: the list of moves *)

From Stdlib Require DecimalString.

Definition newline : ascii := ascii_of_nat 10.

(** A non-negative integer spliced into a template literal. *)
Definition decimal (n : nat) : jsstring :=
  str (DecimalString.NilZero.string_of_uint (Nat.to_uint n)).

(** One turn of the loop of [formatMovesSan], lines 29-32. *)
Definition formatStep (moves : list jsstring) (out : jsstring) (i : nat) : jsstring :=
  let moveNo := i / 2 + 1 in
  let out := if i mod 2 =? 0 then out ++ decimal moveNo ++ str ". " else out in
  let out := out ++ orEmpty (nth_error moves i) in
  out ++ (if i mod 2 =? 1 then [newline] else [space]).

Definition formatMovesSan (moves : list jsstring) : jsstring :=
  if length moves =? 0 then str "No moves yet."
  else trimEnd (fold_left (formatStep moves) (seq 0 (length moves)) []).

(** The lines of the list of moves: the number of the move, a dot, the move
    of White and, when it is there, the move of Black. *)
Fixpoint moveLines (n : nat) (moves : list jsstring) : list jsstring :=
  match moves with
  | [] => []
  | [w] => [decimal n ++ str ". " ++ w]
  | w :: b :: rest => (decimal n ++ str ". " ++ w ++ space :: b) :: moveLines (S n) rest
  end.

Fixpoint joinLines (l : list jsstring) : jsstring :=
  match l with
  | [] => []
  | [t] => t
  | t :: r => t ++ newline :: joinLines r
  end.

(** What the loop of [formatMovesSan] adds for the moves from place [i] on. *)
Fixpoint renderFrom (i : nat) (moves : list jsstring) : jsstring :=
  match moves with
  | [] => []
  | m :: r =>
      (if i mod 2 =? 0 then decimal (i / 2 + 1) ++ str ". " else [])
      ++ m ++ (if i mod 2 =? 1 then [newline] else [space]) ++ renderFrom (S i) r
  end.

(** ** Further notions: the shapes of [sanFromSpeech] *)

(** The words that make a castling phrase king side, and queen side. *)
Definition kingSideWords : list jsstring :=
  [ str "king side"; str "kingside"; str "short" ].

Definition queenSideWords : list jsstring :=
  [ str "queen side"; str "queenside"; str "long" ].

(** The class [[a-z0-9+#=]]: what is left of the class of the fallback on a
    lowercase string without hyphens. *)
Definition isResidueChar (c : ascii) : bool :=
  isLowerAlnum c || (codeOf c =? 43) || (codeOf c =? 35) || (codeOf c =? 61).

(** A promotion word stands at [j], at most three places after a promote
    word at [i]. *)
Definition promoAt (tokens : list jsstring) (i j : nat) : Prop :=
  isPromoteWord (nth_error tokens i) = true /\ i <= j < i + 4 /\
  mapHasOpt promoWords (nth_error tokens j) = true.

(** The classifier of [interpretConfirmCommand] on other word lists. *)
Definition classifyWith (yesWords noWords repWords : list jsstring) (raw : jsstring)
    : Cmd.t :=
  let t := toLowerCase raw in
  if someIncluded t yesWords then Cmd.CONFIRM
  else if someIncluded t noWords then Cmd.CANCEL
  else if someIncluded t repWords then Cmd.REPEAT
  else Cmd.UNKNOWN.

(** ** Further notions: the dialogue *)

(** What the dialogue asks of the move application and of the engine. *)
Definition isRequest (e : Effect) : bool :=
  match e with
  | MoveTried _ | Posted _ => true
  | _ => false
  end.

Definition requests (effects : list Effect) : list Effect := filter isRequest effects.

(** The collaborators of [Toy] in a browser without speech recognition. *)
Definition deafCollaborators : Collaborators :=
  {| Chess := list jsstring;
     newChess := [];
     moveSan := Toy.move;
     moveObject := Toy.moveTo;
     isCheckmate := Toy.mated;
     isDraw := fun _ => false;
     fen := join;
     SpeechRecognition := false |}.

(** A part of a line: not empty, without white space. *)
Definition word (t : jsstring) : Prop :=
  t <> [] /\ forallb (fun c => negb (isSpace c)) t = true.

(** Every start of a session but the first comes right after a stop. *)
Definition startsAfterStop (effects : list Effect) : Prop :=
  forall l1 l2, effects = l1 ++ Started :: l2 -> In Started l1 ->
  exists l0, l1 = l0 ++ [Stopped].

Section DialogueNotions.

Context {collaborators : Collaborators}.

(** While the engine thinks no session runs. *)
Definition busyIdle (s : State) : Prop := busy s = true -> live s = false.

(** Nothing runs: no recognizer, no session, no engine query, no move
    made; the only effects are spoken texts. *)
Definition inert (s : State) : Prop :=
  live s = false /\ recogRef s = None /\ retired s = [] /\ busy s = false
  /\ listening s = false
  /\ moves s = [] /\ Forall (fun e => exists text, e = Spoken text) (effects s).

(** The log of effects keeps the stop-then-start order, and holds no start
    as long as there is no recognizer. *)
Definition disciplined (s : State) : Prop :=
  startsAfterStop (effects s) /\
  (recogRef s = None -> ~ In Started (effects s)).

(** A move session listens in mode MOVE with nothing pending only. *)
Definition moveSessionSound (s : State) : Prop :=
  live s = true -> forall r, recogRef s = Some (onMove r) ->
  mode s = Mode.MOVE /\ pendingSan s = [].

End DialogueNotions.

(** * Properties *)

(** ** Strings *)

Lemma jsstring_eqb_true (a b : jsstring) : jsstring_eqb a b = true <-> a = b.
Proof.
  unfold jsstring_eqb. destruct (list_eq_dec ascii_dec a b); split; congruence.
Qed.

Lemma jsstring_eqb_refl (a : jsstring) : jsstring_eqb a a = true.
Proof. now apply jsstring_eqb_true. Qed.

Lemma startsWith_spec (w s : jsstring) :
  startsWith s w = true <-> exists post, s = w ++ post.
Proof.
  revert s. induction w as [|a w IH]; intros s; simpl.
  - split; [intros _; now exists s | reflexivity].
  - destruct s as [|b s].
    + split; [discriminate | intros [post H]; discriminate].
    + destruct (ascii_dec a b) as [->|Hne].
      * rewrite IH. split; intros [post H]; exists post; simpl in *; congruence.
      * split; [discriminate | intros [post H]; simpl in H; congruence].
Qed.

Lemma includes_spec (s w : jsstring) : includes s w = true <-> contains s w.
Proof.
  unfold contains. induction s as [|c s IH].
  - simpl. rewrite orb_false_r, startsWith_spec. split.
    + intros [post H]. now exists [], post.
    + intros [[|p pre] [post H]]; [now exists post | discriminate].
  - cbn [includes]. rewrite orb_true_iff, startsWith_spec, IH. split.
    + intros [[post H] | [pre [post H]]].
      * now exists [], post.
      * exists (c :: pre), post. simpl. now f_equal.
    + intros [[|p pre] [post H]].
      * left. now exists post.
      * right. exists pre, post. simpl in H. congruence.
Qed.

Lemma contains_toLowerCase (s w : jsstring) :
  contains s w -> contains (toLowerCase s) (toLowerCase w).
Proof.
  intros [pre [post ->]]. exists (toLowerCase pre), (toLowerCase post).
  unfold toLowerCase. now rewrite !map_app.
Qed.

(** ** The confirmation classifier *)

Lemma someIncluded_spec (t : jsstring) (words : list jsstring) :
  someIncluded t words = true <-> matches t words.
Proof.
  unfold someIncluded, matches. rewrite existsb_exists.
  split; intros [w [Hin H]]; exists w; split; trivial; now apply includes_spec.
Qed.

Lemma someIncluded_false (t : jsstring) (words : list jsstring) :
  ~ matches t words -> someIncluded t words = false.
Proof.
  intros H. destruct (someIncluded t words) eqn:E; trivial.
  now apply someIncluded_spec in E.
Qed.

Lemma words_lowercase (w : jsstring) :
  In w (yes ++ no ++ rep) -> toLowerCase w = w.
Proof.
  revert w. apply Forall_forall. repeat constructor.
Qed.

Lemma confirm_first (raw : jsstring) :
  matches (toLowerCase raw) yes -> interpretConfirmCommand raw = Cmd.CONFIRM.
Proof.
  intros H. unfold interpretConfirmCommand.
  now rewrite (proj2 (someIncluded_spec _ _) H).
Qed.

(** C5: the classifier lowercases the transcript and looks for a word of
    the CONFIRM list, then of the CANCEL list, then of the REPEAT list, as a
    substring; the first list with a match gives the verdict, UNKNOWN when
    none has one.  A transcript holding a CONFIRM word and a CANCEL word is
    classified CONFIRM. *)
Theorem C5_classifier_order (raw : jsstring) :
  let t := toLowerCase raw in
  (matches t yes -> interpretConfirmCommand raw = Cmd.CONFIRM) /\
  (~ matches t yes -> matches t no -> interpretConfirmCommand raw = Cmd.CANCEL) /\
  (~ matches t yes -> ~ matches t no -> matches t rep ->
   interpretConfirmCommand raw = Cmd.REPEAT) /\
  (~ matches t yes -> ~ matches t no -> ~ matches t rep ->
   interpretConfirmCommand raw = Cmd.UNKNOWN) /\
  (forall wy wn, In wy yes -> In wn no ->
     contains raw wy \/ contains t wy -> contains raw wn \/ contains t wn ->
     interpretConfirmCommand raw = Cmd.CONFIRM).
Proof.
  intros t. repeat split.
  - apply confirm_first.
  - intros Hy Hn. unfold interpretConfirmCommand. fold t.
    now rewrite (someIncluded_false _ _ Hy), (proj2 (someIncluded_spec _ _) Hn).
  - intros Hy Hn Hr. unfold interpretConfirmCommand. fold t.
    now rewrite (someIncluded_false _ _ Hy), (someIncluded_false _ _ Hn),
      (proj2 (someIncluded_spec _ _) Hr).
  - intros Hy Hn Hr. unfold interpretConfirmCommand. fold t.
    now rewrite (someIncluded_false _ _ Hy), (someIncluded_false _ _ Hn),
      (someIncluded_false _ _ Hr).
  - intros wy wn Hwy _ Hc _. apply confirm_first. exists wy. split; trivial.
    destruct Hc as [Hc | Hc]; trivial.
    apply contains_toLowerCase in Hc.
    rewrite (words_lowercase wy) in Hc; trivial.
    apply in_or_app. now left.
Qed.

Lemma C5_classifier_order_witness :
  interpretConfirmCommand (str "No, YES") = Cmd.CONFIRM.
Proof.
  apply (proj2 (proj2 (proj2 (proj2 (C5_classifier_order (str "No, YES"))))))
    with (wy := str "yes") (wn := str "no").
  - simpl. tauto.
  - simpl. tauto.
  - right. now exists (str "no, "), [].
  - right. now exists [], (str ", yes").
Defined.

(** C10: the CONFIRM words are matched as bare substrings: a transcript
    whose lowercase form holds "go" or "ok" anywhere, also inside a longer
    word, is classified CONFIRM, even when it holds a CANCEL word too. *)
Theorem C10_go_ok_inside_words :
  (forall raw,
     contains (toLowerCase raw) (str "go") \/ contains (toLowerCase raw) (str "ok") ->
     interpretConfirmCommand raw = Cmd.CONFIRM) /\
  interpretConfirmCommand (str "going") = Cmd.CONFIRM /\
  interpretConfirmCommand (str "broken") = Cmd.CONFIRM /\
  (matches (toLowerCase (str "no go")) no /\
   interpretConfirmCommand (str "no go") = Cmd.CONFIRM).
Proof.
  split; [|repeat split].
  - intros raw [H | H]; apply confirm_first.
    + exists (str "go"). split; trivial. simpl. tauto.
    + exists (str "ok"). split; trivial. simpl. tauto.
  - exists (str "no"). split; [simpl; tauto | now exists [], (str " go")].
Qed.

Lemma C10_go_ok_inside_words_witness :
  interpretConfirmCommand (str "I am GOING") = Cmd.CONFIRM.
Proof.
  apply (proj1 C10_go_ok_inside_words). left. now exists (str "i am "), (str "ing").
Defined.

(** ** Squares *)

Lemma inRange_files (c : ascii) : inRange 97 104 c = true -> In c files.
Proof.
  destruct c as [[] [] [] [] [] [] [] []]; intros H; try discriminate H;
    simpl; tauto.
Qed.

Lemma inRange_ranks (c : ascii) : inRange 49 56 c = true -> In c ranks.
Proof.
  destruct c as [[] [] [] [] [] [] [] []]; intros H; try discriminate H;
    simpl; tauto.
Qed.

Lemma isFile_inv (t : option jsstring) :
  isFile t = true -> exists c, t = Some [c] /\ In c files.
Proof.
  destruct t as [[|c [|d t]]|]; try discriminate.
  intros H. exists c. split; trivial. now apply inRange_files.
Qed.

Lemma isRank_inv (t : option jsstring) :
  isRank t = true -> exists c, t = Some [c] /\ In c ranks.
Proof.
  destruct t as [[|c [|d t]]|]; try discriminate.
  intros H. exists c. split; trivial. now apply inRange_ranks.
Qed.

Lemma forallb_In {A : Type} (p : A -> bool) (l : list A) (x : A) :
  forallb p l = true -> In x l -> p x = true.
Proof. intros H. now apply forallb_forall. Qed.

(** ** The pawn push *)

(** C4: for a file letter f and a rank digit r, the two tokens f, r are
    interpreted as the string f followed by r and nothing else; so is the
    transcript made of f, a space and r. *)
Theorem C4_pawn_push_identity (f r : jsstring) :
  isFile (Some f) = true -> isRank (Some r) = true ->
  tokensOf (cleanedOf (join [f; r])) = [f; r] /\
  (forall cleaned, interpret cleaned [f; r] = f ++ r) /\
  sanFromSpeech (join [f; r]) = f ++ r.
Proof.
  intros Hf Hr.
  apply isFile_inv in Hf. destruct Hf as [cf [Ef Hf]].
  apply isRank_inv in Hr. destruct Hr as [cr [Er Hr]].
  injection Ef as ->. injection Er as ->.
  assert (K : forallb (fun cf => forallb (fun cr =>
              jsstring_eqb (sanFromSpeech (join [[cf]; [cr]])) [cf; cr]
              && if list_eq_dec (list_eq_dec ascii_dec)
                      (tokensOf (cleanedOf (join [[cf]; [cr]]))) [[cf]; [cr]]
                 then true else false) ranks) files = true)
    by (vm_compute; reflexivity).
  pose proof (forallb_In _ _ _ (forallb_In _ _ _ K Hf) Hr) as K'.
  cbv beta in K'. apply andb_true_iff in K'. destruct K' as [K1 K2].
  apply jsstring_eqb_true in K1.
  destruct (list_eq_dec _ _ _) as [K3|]; [|discriminate].
  repeat split; trivial.
  intros cleaned. clear K K1 K2 K3.
  simpl in Hf, Hr.
  repeat (destruct Hf as [<-|Hf]; [repeat (destruct Hr as [<-|Hr]; [reflexivity|]); destruct Hr|]).
  destruct Hf.
Qed.

Lemma C4_pawn_push_identity_witness :
  sanFromSpeech (str "e 4") = str "e4".
Proof.
  apply (C4_pawn_push_identity (str "e") (str "4")); reflexivity.
Defined.

(** ** Loops, lookups and suffixes *)

Lemma fold_left_inv {A B : Type} (P : A -> Prop) (f : A -> B -> A) (l : list B) (a : A) :
  (forall a x, P a -> P (f a x)) -> P a -> P (fold_left f l a).
Proof.
  intros Hf. revert a. induction l as [|x l IH]; intros a Ha; simpl; auto.
Qed.

Lemma promoWords_value (p : jsstring) :
  mapHas promoWords p = true -> In (str "=" ++ mapGetStr promoWords p) promos.
Proof.
  unfold mapHas, mapGetStr. simpl mapGet.
  repeat (destruct (jsstring_eqb _ p); [intros _; simpl; tauto|]).
  discriminate.
Qed.

Lemma pieceWords_value (w : jsstring) :
  mapHas pieceWords w = true -> In (mapGetStr pieceWords w) pieceLetters.
Proof.
  unfold mapHas, mapGetStr. simpl mapGet.
  repeat (destruct (jsstring_eqb _ w); [intros _; simpl; tauto|]).
  discriminate.
Qed.

Lemma promoScan_value (tokens : list jsstring) : In (promoScan tokens) promos.
Proof.
  unfold promoScan. apply fold_left_inv; [|simpl; tauto].
  intros promo i Hp. unfold promoOuter.
  destruct (isPromoteWord _); trivial.
  apply fold_left_inv; trivial.
  intros promo' j Hp'. unfold promoInner.
  destruct (at_ tokens (Z.of_nat j)) as [p|]; trivial.
  destruct (mapHas promoWords p) eqn:E; trivial.
  now apply promoWords_value.
Qed.

Lemma withSuffix_value (tokens : list jsstring) (san : jsstring) :
  exists sfx, In sfx suffixes /\ withSuffix tokens san = san ++ sfx.
Proof.
  unfold withSuffix.
  destruct (hasMateOf tokens); [exists (str "#"); simpl; tauto|].
  destruct (hasCheckOf tokens); [exists (str "+"); simpl; tauto|].
  exists []. rewrite app_nil_r. simpl; tauto.
Qed.

Lemma at_cons (t : jsstring) (tokens : list jsstring) (i : Z) :
  (0 <= i)%Z -> at_ (t :: tokens) (i + 1) = at_ tokens i.
Proof.
  intros Hi. unfold at_.
  destruct (Z.ltb_spec (i + 1) 0); [lia|].
  destruct (Z.ltb_spec i 0); [lia|].
  replace (Z.to_nat (i + 1)) with (S (Z.to_nat i)) by lia. reflexivity.
Qed.

Lemma at_nat (tokens : list jsstring) (n : nat) :
  at_ tokens (Z.of_nat n) = nth_error tokens n.
Proof.
  unfold at_. destruct (Z.ltb_spec (Z.of_nat n) 0); [lia|]. now rewrite Nat2Z.id.
Qed.

Lemma at_Some (tokens : list jsstring) (i : Z) (t : jsstring) :
  at_ tokens i = Some t -> (0 <= i < Z.of_nat (length tokens))%Z.
Proof.
  unfold at_. destruct (Z.ltb_spec i 0) as [|Hi]; [discriminate|].
  intros Hnth. assert (Z.to_nat i < length tokens) by (apply nth_error_Some; congruence).
  lia.
Qed.

(** [findIndex] gives the first place where [p] holds, or [-1]. *)
Lemma findIndexFrom_spec (p : jsstring -> bool) (tokens : list jsstring) (i : Z) :
  (0 <= i)%Z ->
  (findIndexFrom p tokens i = (-1)%Z /\ forall t, In t tokens -> p t = false)
  \/ (exists n t, findIndexFrom p tokens i = (i + Z.of_nat n)%Z
        /\ nth_error tokens n = Some t /\ p t = true
        /\ forall m t', m < n -> nth_error tokens m = Some t' -> p t' = false).
Proof.
  revert i. induction tokens as [|t tokens IH]; intros i Hi; simpl.
  - left. split; [reflexivity | intros t []].
  - destruct (p t) eqn:E.
    + right. exists 0, t. repeat split; trivial; [lia | intros m t' Hm; lia].
    + destruct (IH (i + 1)%Z ltac:(lia)) as [[H1 H2] | [n [t0 [H1 [H2 [H3 H4]]]]]].
      * left. split; trivial. intros t' [<-|Hin]; auto.
      * right. exists (S n), t0. repeat split; trivial; [lia|].
        intros [|m] t' Hm Hnth; simpl in Hnth; [congruence|].
        apply (H4 m); trivial; lia.
Qed.

Lemma findIndex_found (p : jsstring -> bool) (tokens : list jsstring) :
  findIndex p tokens <> (-1)%Z ->
  exists t, at_ tokens (findIndex p tokens) = Some t /\ p t = true.
Proof.
  intros H. unfold findIndex in *.
  destruct (findIndexFrom_spec p tokens 0 ltac:(lia)) as [[H1 _] | [n [t [H1 [H2 [H3 _]]]]]].
  - contradiction.
  - exists t. rewrite H1. simpl. now rewrite at_nat.
Qed.

Lemma findIndex_first (p : jsstring -> bool) (tokens : list jsstring) (k : Z) (w : jsstring) :
  at_ tokens k = Some w -> p w = true ->
  (forall j w', (j < k)%Z -> at_ tokens j = Some w' -> p w' = false) ->
  findIndex p tokens = k.
Proof.
  intros Hk Hp Hfirst. unfold findIndex.
  pose proof (at_Some _ _ _ Hk) as Hrange.
  destruct (findIndexFrom_spec p tokens 0 ltac:(lia)) as [[H1 H2] | [n [t [H1 [H2 [H3 H4]]]]]].
  - exfalso. unfold at_ in Hk. destruct (Z.ltb_spec k 0); [lia|].
    apply nth_error_In in Hk. apply H2 in Hk. congruence.
  - rewrite H1. simpl.
    destruct (Z.lt_trichotomy (Z.of_nat n) k) as [Hlt | [Heq | Hgt]]; trivial.
    + rewrite <- at_nat in H2. specialize (Hfirst _ _ Hlt H2). congruence.
    + exfalso. rewrite <- (Z2Nat.id k) in Hk by lia. rewrite at_nat in Hk.
      assert (Hm : Z.to_nat k < n) by lia.
      specialize (H4 _ _ Hm Hk). congruence.
Qed.

Lemma toSquare_pair (cf cr : ascii) :
  In cf files -> In cr ranks -> toSquare (Some [cf]) (Some [cr]) = [cf; cr].
Proof.
  intros Hf Hr. simpl in Hf, Hr.
  repeat (destruct Hf as [<-|Hf]; [repeat (destruct Hr as [<-|Hr]; [reflexivity|]); destruct Hr|]).
  destruct Hf.
Qed.

(** The destination found by the loop of the piece shape is empty or a square. *)
Lemma destScan_value (tokens : list jsstring) :
  destScan tokens = [] \/
  exists cf cr, In cf files /\ In cr ranks /\ destScan tokens = [cf; cr].
Proof.
  unfold destScan. apply fold_left_inv; [|now left].
  intros dest i Hd. unfold destStep.
  destruct (isFile _) eqn:Ef; trivial. destruct (isRank _) eqn:Er; trivial. simpl.
  apply isFile_inv in Ef. destruct Ef as [cf [-> Hf]].
  apply isRank_inv in Er. destruct Er as [cr [-> Hr]].
  right. exists cf, cr. repeat split; trivial. now apply toSquare_pair.
Qed.

Lemma pawnPush_eq (f r : jsstring) (rest : list jsstring) (promo : jsstring) :
  isFile (Some f) = true -> isRank (Some r) = true ->
  let tokens := f :: r :: rest in
  pawnPush tokens promo =
  withSuffix tokens
    (f ++ r ++ if isEmpty promo && mapHasOpt promoWords (at_ tokens 2)
               then str "=" ++ mapGetStr promoWords (orEmpty (at_ tokens 2))
               else promo).
Proof.
  intros Hf Hr tokens. unfold pawnPush.
  replace (toSquare (at_ tokens 0) (at_ tokens 1)) with (f ++ r)
    by (unfold tokens; change (at_ (f :: r :: rest) 0) with (Some f);
        change (at_ (f :: r :: rest) 1) with (Some r);
        unfold toSquare; now rewrite Hf, Hr).
  rewrite <- app_assoc. do 3 f_equal.
  destruct rest as [|t rest].
  - unfold tokens. change (at_ [f; r] 2) with (@None jsstring).
    change (3 <=? length [f; r]) with false.
    cbn [mapHasOpt]. now rewrite !andb_false_r.
  - change (3 <=? length tokens) with true. now rewrite andb_true_r.
Qed.

(** C9: when the first token is a file letter and the second a rank digit,
    the result is the pawn push made of these two tokens, followed by the
    promotion suffix (the one of the promotion scan, else the one of a piece
    word in third place) and the check or mate suffix.  No "x" occurs in it,
    and the later tokens count through these two suffixes only: a capture
    word and a later file and rank are not looked at, as in e 4 takes d 5,
    which gives e4. *)
Theorem C9_pawn_push_wins (cleaned f r : jsstring) (rest : list jsstring) :
  isFile (Some f) = true -> isRank (Some r) = true ->
  let tokens := f :: r :: rest in
  interpret cleaned tokens = f ++ r ++ pushPromoOf tokens ++ suffixOf tokens /\
  In (pushPromoOf tokens) promos /\ In (suffixOf tokens) suffixes /\
  ~ In "x"%char (interpret cleaned tokens) /\
  (forall cleaned' rest',
     pushPromoOf (f :: r :: rest') = pushPromoOf tokens ->
     suffixOf (f :: r :: rest') = suffixOf tokens ->
     interpret cleaned' (f :: r :: rest') = interpret cleaned tokens) /\
  interpret cleaned [str "e"; str "4"; str "takes"; str "d"; str "5"] = str "e4".
Proof.
  intros Hf Hr tokens.
  assert (Heq : forall cleaned rest,
             interpret cleaned (f :: r :: rest)
             = f ++ r ++ pushPromoOf (f :: r :: rest) ++ suffixOf (f :: r :: rest)).
  { clear cleaned rest tokens. intros cleaned rest.
    assert (Hshape : pawnPushShape (f :: r :: rest) = true).
    { unfold pawnPushShape.
      change (at_ (f :: r :: rest) 0) with (Some f).
      change (at_ (f :: r :: rest) 1) with (Some r).
      now rewrite Hf, Hr. }
    unfold interpret. rewrite Hshape. rewrite pawnPush_eq by trivial.
    fold (pushPromoOf (f :: r :: rest)). unfold withSuffix, suffixOf.
    destruct (hasMateOf _); [now rewrite <- !app_assoc|].
    destruct (hasCheckOf _); [now rewrite <- !app_assoc|].
    now rewrite app_nil_r. }
  assert (Hpromo : In (pushPromoOf tokens) promos).
  { unfold pushPromoOf. destruct (isEmpty _ && _) eqn:E; [|apply promoScan_value].
    apply andb_true_iff in E. destruct E as [_ E].
    destruct (at_ tokens 2) as [p|]; [|discriminate]. now apply promoWords_value. }
  assert (Hs : In (suffixOf tokens) suffixes).
  { unfold suffixOf. destruct (hasMateOf tokens); [simpl; tauto|].
    destruct (hasCheckOf tokens); simpl; tauto. }
  split; [apply Heq|]. split; [exact Hpromo|]. split; [exact Hs|].
  split; [|split; [|reflexivity]].
  - unfold tokens at 1. rewrite (Heq cleaned rest). fold tokens. intros Hx.
    apply isFile_inv in Hf. destruct Hf as [cf [Ef Hf]]. injection Ef as ->.
    apply isRank_inv in Hr. destruct Hr as [cr [Er Hr]]. injection Er as ->.
    assert (Hnox : forall l : list jsstring,
               forallb (forallb (fun c => negb (isCharOf (str "x") c))) l = true ->
               forall s, In s l -> ~ In "x"%char s).
    { intros l Hl s Hin Hxs. apply (forallb_In _ _ _ Hl) in Hin.
      apply (forallb_In _ _ _ Hin) in Hxs. discriminate Hxs. }
    apply in_app_or in Hx. destruct Hx as [Hx | Hx].
    { destruct Hx as [->|[]]. exact (Hnox [files] eq_refl files (or_introl eq_refl) Hf). }
    apply in_app_or in Hx. destruct Hx as [Hx | Hx].
    { destruct Hx as [->|[]]. exact (Hnox [ranks] eq_refl ranks (or_introl eq_refl) Hr). }
    apply in_app_or in Hx. destruct Hx as [Hx | Hx].
    + now apply (Hnox promos eq_refl (pushPromoOf tokens)).
    + now apply (Hnox suffixes eq_refl (suffixOf tokens)).
  - intros cleaned' rest' Ep Es. rewrite (Heq cleaned' rest'), Ep, Es.
    symmetry. apply Heq.
Qed.

Lemma C9_pawn_push_wins_witness :
  sanFromSpeech (str "e four takes d five check") = str "e4+".
Proof.
  change (interpret (str "e four takes d five check")
            (str "e" :: str "4" :: [str "takes"; str "d"; str "5"; str "check"])
          = str "e4+").
  now rewrite (proj1 (C9_pawn_push_wins (str "e four takes d five check")
                        (str "e") (str "4")
                        [str "takes"; str "d"; str "5"; str "check"]
                        eq_refl eq_refl)).
Defined.

(** ** The shapes and the syntax of SAN *)

Lemma castling_value (cleaned san : jsstring) :
  castling cleaned = Some san -> san = str "O-O" \/ san = str "O-O-O".
Proof.
  unfold castling.
  repeat match goal with
         | |- (if ?b then _ else _) = _ -> _ => destruct b
         end; intros H; inversion H; auto.
Qed.

Lemma pawnPush_wellFormed (tokens : list jsstring) (promo : jsstring) :
  pawnPushShape tokens = true -> In promo promos ->
  wellFormedSan (pawnPush tokens promo) = true.
Proof.
  unfold pawnPushShape. rewrite !andb_true_iff. intros [[_ Hf] Hr] Hp.
  unfold pawnPush.
  set (promo' := if isEmpty promo && (3 <=? length tokens)
                      && mapHasOpt promoWords (at_ tokens 2)
                 then str "=" ++ mapGetStr promoWords (orEmpty (at_ tokens 2))
                 else promo).
  assert (Hp' : In promo' promos).
  { unfold promo'. destruct (_ && _) eqn:E; trivial.
    apply andb_true_iff in E. destruct E as [_ E].
    destruct (at_ tokens 2) as [p|]; [|discriminate]. now apply promoWords_value. }
  apply isFile_inv in Hf. destruct Hf as [cf [-> Hf]].
  apply isRank_inv in Hr. destruct Hr as [cr [-> Hr]].
  rewrite toSquare_pair by trivial.
  destruct (withSuffix_value tokens ([cf; cr] ++ promo')) as [sfx [Hs ->]].
  assert (K : forallb (fun cf => forallb (fun cr => forallb (fun p => forallb (fun sfx =>
              wellFormedSan (([cf; cr] ++ p) ++ sfx)) suffixes) promos) ranks) files = true)
    by (vm_compute; reflexivity).
  exact (forallb_In _ _ _ (forallb_In _ _ _ (forallb_In _ _ _ (forallb_In _ _ _ K Hf) Hr) Hp') Hs).
Qed.

Lemma pawnCapture_wellFormed (tokens : list jsstring) (promo : jsstring) :
  pawnCaptureShape tokens = true -> In promo promos ->
  let takesIdx := findIndex isCaptureWord tokens in
  wellFormedSan
    (withSuffix tokens
       (orEmpty (at_ tokens 0) ++ str "x"
        ++ toSquare (at_ tokens (takesIdx + 1)) (at_ tokens (takesIdx + 2)) ++ promo)) = true.
Proof.
  intros Hshape Hp takesIdx. revert Hshape.
  unfold pawnCaptureShape. fold takesIdx. rewrite !andb_true_iff.
  intros [[[[[_ H0] _] Hf] Hr] _].
  apply isFile_inv in H0. destruct H0 as [c0 [-> H0]].
  apply isFile_inv in Hf. destruct Hf as [cf [-> Hf]].
  apply isRank_inv in Hr. destruct Hr as [cr [-> Hr]].
  rewrite toSquare_pair by trivial.
  destruct (withSuffix_value tokens (orEmpty (Some [c0]) ++ str "x" ++ [cf; cr] ++ promo))
    as [sfx [Hs ->]].
  assert (K : forallb (fun c0 => forallb (fun cf => forallb (fun cr => forallb (fun p =>
              forallb (fun sfx =>
                wellFormedSan ((orEmpty (Some [c0]) ++ str "x" ++ [cf; cr] ++ p) ++ sfx))
              suffixes) promos) ranks) files) files = true)
    by (vm_compute; reflexivity).
  exact (forallb_In _ _ _ (forallb_In _ _ _ (forallb_In _ _ _ (forallb_In _ _ _
           (forallb_In _ _ _ K H0) Hf) Hr) Hp) Hs).
Qed.

Lemma pieceMove_wellFormed (tokens : list jsstring) (isCapture : bool) :
  findIndex (mapHas pieceWords) tokens <> (-1)%Z ->
  let out := pieceMove tokens [] isCapture (findIndex (mapHas pieceWords) tokens) in
  out = [] \/ wellFormedSan out = true.
Proof.
  intros Hidx out. unfold out, pieceMove.
  destruct (findIndex_found _ _ Hidx) as [w [-> Hw]].
  apply pieceWords_value in Hw. cbn [orEmpty].
  destruct (destScan_value tokens) as [-> | [cf [cr [Hf [Hr ->]]]]]; [now left|].
  right. cbn [isEmpty].
  match goal with
  | |- context [mapGetStr pieceWords w ++ ?e ++ _] => set (x := e)
  end.
  assert (Hx : In x [str "x"; []]) by (unfold x; destruct isCapture; simpl; tauto).
  destruct (withSuffix_value tokens (mapGetStr pieceWords w ++ x ++ [cf; cr] ++ []))
    as [sfx [Hs ->]].
  assert (K : forallb (fun P => forallb (fun x => forallb (fun cf => forallb (fun cr =>
              forallb (fun sfx => wellFormedSan ((P ++ x ++ [cf; cr] ++ []) ++ sfx))
              suffixes) ranks) files) [str "x"; []]) pieceLetters = true)
    by (vm_compute; reflexivity).
  exact (forallb_In _ _ _ (forallb_In _ _ _ (forallb_In _ _ _ (forallb_In _ _ _
           (forallb_In _ _ _ K Hw) Hx) Hf) Hr) Hs).
Qed.

(** C3, as stated, fails: the transcript hello has no shape, and the
    fallback gives it back as it is, which is neither empty nor a SAN
    token. *)
Lemma C3_counterexample :
  ~ (forall raw, sanFromSpeech raw = [] \/ wellFormedSan (sanFromSpeech raw) = true).
Proof.
  intros H. destruct (H (str "hello")) as [H' | H']; vm_compute in H'; discriminate H'.
Qed.

(** C3, amended: when the castling, the pawn push or the pawn capture
    shape matches, or the piece shape with no promotion recorded, the result
    is empty or a well-formed SAN token; when no shape matches, the result
    is the fallback residue of the cleaned transcript, made of letters,
    digits, "+", "#", "=" and "-" only, whether it is a SAN token or not. *)
Theorem C3_outputs (raw : jsstring) :
  let cleaned := cleanedOf raw in
  let tokens := tokensOf cleaned in
  let out := sanFromSpeech raw in
  let pieceIdx := findIndex (mapHas pieceWords) tokens in
  (castling cleaned <> None \/ pawnPushShape tokens = true
   \/ pawnCaptureShape tokens = true
   \/ (pieceIdx <> (-1)%Z /\ promoScan tokens = []) ->
   out = [] \/ wellFormedSan out = true) /\
  (castling cleaned = None -> pawnPushShape tokens = false ->
   pawnCaptureShape tokens = false -> pieceIdx = (-1)%Z ->
   out = fallbackOf cleaned /\ Forall (fun c => isFallbackChar c = true) out).
Proof.
  intros cleaned tokens out pieceIdx. unfold pieceIdx, out, sanFromSpeech.
  destruct (isEmpty raw) eqn:Eraw.
  { split; [now left|]. intros _ _ _ _.
    destruct raw; [|discriminate Eraw]. split; [reflexivity | constructor]. }
  fold cleaned. destruct (castling cleaned) as [san|] eqn:Ec.
  { split; [|discriminate]. intros _. right.
    apply castling_value in Ec. destruct Ec as [-> | ->]; reflexivity. }
  fold tokens. unfold interpret.
  destruct (pawnPushShape tokens) eqn:Epush.
  { split; [|discriminate]. intros _. right.
    apply pawnPush_wellFormed; trivial. apply promoScan_value. }
  destruct (pawnCaptureShape tokens) eqn:Ecap.
  { split; [|discriminate]. intros _. right.
    apply pawnCapture_wellFormed; trivial. apply promoScan_value. }
  destruct (Z.eqb_spec (findIndex (mapHas pieceWords) tokens) (-1)) as [Eidx | Eidx];
    cbn [negb].
  - split.
    + intros [H | [H | [H | [H _]]]]; congruence.
    + intros _ _ _ _. split; trivial.
      apply Forall_forall. intros c Hc. unfold fallbackOf in Hc.
      now apply filter_In in Hc.
  - split; [|congruence].
    intros [H | [H | [H | [_ Ep]]]]; try congruence. rewrite Ep.
    destruct (pieceMove_wellFormed tokens
                (negb (findIndex isCaptureWord tokens =? -1)%Z) Eidx) as [H | H]; auto.
Qed.

Lemma C3_outputs_witness :
  (sanFromSpeech (str "knight f three") = []
   \/ wellFormedSan (sanFromSpeech (str "knight f three")) = true) /\
  sanFromSpeech (str "hello") = fallbackOf (cleanedOf (str "hello")).
Proof.
  split.
  - apply (proj1 (C3_outputs (str "knight f three"))).
    right; right; right. vm_compute. split; [discriminate | reflexivity].
  - refine (proj1 (proj2 (C3_outputs (str "hello")) _ _ _ _));
      vm_compute; reflexivity.
Defined.

(** ** The piece shape *)

Lemma pairAt_dec (tokens : list jsstring) (i : Z) :
  isFile (at_ tokens i) && isRank (at_ tokens (i + 1)) = true <-> pairAt tokens i.
Proof. unfold pairAt. now rewrite andb_true_iff. Qed.

Lemma pairAt_range (tokens : list jsstring) (i : Z) :
  pairAt tokens i -> (0 <= i /\ i + 1 < Z.of_nat (length tokens))%Z.
Proof.
  intros [Hf Hr].
  apply isFile_inv in Hf. destruct Hf as [cf [Hf _]]. apply at_Some in Hf.
  apply isRank_inv in Hr. destruct Hr as [cr [Hr _]]. apply at_Some in Hr.
  lia.
Qed.

Lemma toSquare_pairAt (tokens : list jsstring) (i : Z) :
  pairAt tokens i ->
  toSquare (at_ tokens i) (at_ tokens (i + 1))
  = orEmpty (at_ tokens i) ++ orEmpty (at_ tokens (i + 1)).
Proof. intros [Hf Hr]. unfold toSquare. now rewrite Hf, Hr. Qed.

(** After [m] turns the destination loop holds the last pair below [m]. *)
Lemma destLoop_last (tokens : list jsstring) (m : nat) :
  let dest := fold_left (destStep tokens) (seq 0 m) [] in
  ((forall i, i < m -> ~ pairAt tokens (Z.of_nat i)) -> dest = []) /\
  (forall i, i < m -> pairAt tokens (Z.of_nat i) ->
     (forall j, i < j < m -> ~ pairAt tokens (Z.of_nat j)) ->
     dest = orEmpty (at_ tokens (Z.of_nat i)) ++ orEmpty (at_ tokens (Z.of_nat i + 1))).
Proof.
  induction m as [|m [IH0 IH1]]; cbv zeta.
  - split; [reflexivity | intros i Hi; lia].
  - rewrite seq_S, fold_left_app. cbn [fold_left Nat.add].
    set (dest := fold_left (destStep tokens) (seq 0 m) []) in *. unfold destStep.
    destruct (isFile (at_ tokens (Z.of_nat m)) && isRank (at_ tokens (Z.of_nat m + 1)))
      eqn:E.
    + apply pairAt_dec in E. split.
      * intros Hnone. destruct (Hnone m); [lia | trivial].
      * intros i Hi Hpair Hlast.
        destruct (Nat.eq_dec i m) as [-> | Hne]; [now apply toSquare_pairAt|].
        destruct (Hlast m); [lia | trivial].
    + assert (Hm : ~ pairAt tokens (Z.of_nat m))
        by (intros H; apply pairAt_dec in H; congruence).
      split.
      * intros Hnone. apply IH0. intros i Hi. apply Hnone. lia.
      * intros i Hi Hpair Hlast.
        destruct (Nat.eq_dec i m) as [-> | Hne]; [contradiction|].
        apply IH1; trivial; [lia|]. intros j Hj. apply Hlast. lia.
Qed.

Lemma destScan_none (tokens : list jsstring) :
  (forall i, ~ pairAt tokens i) -> destScan tokens = [].
Proof.
  intros H. apply (proj1 (destLoop_last tokens (length tokens - 1))).
  intros i _. apply H.
Qed.

Lemma destScan_last (tokens : list jsstring) (i : Z) :
  lastPairAt tokens i ->
  destScan tokens = orEmpty (at_ tokens i) ++ orEmpty (at_ tokens (i + 1)).
Proof.
  intros [Hpair Hlast]. pose proof (pairAt_range _ _ Hpair) as Hrange.
  assert (Hi : exists n, i = Z.of_nat n) by (exists (Z.to_nat i); lia).
  destruct Hi as [n ->].
  apply (proj2 (destLoop_last tokens (length tokens - 1))); [lia | trivial |].
  intros j Hj. apply Hlast. lia.
Qed.

Lemma isCapture_spec (tokens : list jsstring) :
  negb (findIndex isCaptureWord tokens =? -1)%Z = existsb isCaptureWord tokens.
Proof.
  unfold findIndex.
  destruct (findIndexFrom_spec isCaptureWord tokens 0 ltac:(lia))
    as [[H1 H2] | [n [t [H1 [H2 [H3 _]]]]]].
  - rewrite H1. cbn. symmetry. destruct (existsb isCaptureWord tokens) eqn:E; trivial.
    apply existsb_exists in E. destruct E as [t [Hin Ht]]. rewrite (H2 _ Hin) in Ht.
    discriminate.
  - rewrite H1. destruct (Z.eqb_spec (0 + Z.of_nat n) (-1)); [lia|]. cbn. symmetry.
    apply existsb_exists. exists t. split; trivial. now apply nth_error_In in H2.
Qed.

Lemma dest_nonempty (a b : option jsstring) :
  isFile a = true -> isRank b = true -> isEmpty (orEmpty a ++ orEmpty b) = false.
Proof.
  intros Hf Hr. apply isFile_inv in Hf. destruct Hf as [cf [-> _]]. reflexivity.
Qed.

(** C6: when no castling, pawn push or pawn capture shape matched and a
    piece word is present, the destination is the last file token that a
    rank token follows, anywhere in the tokens: without such a pair the
    result is empty, otherwise it is the letter of the first piece word, an
    "x" when a capture word occurs, the square of that last pair, the
    promotion suffix and the check or mate suffix. *)
Theorem C6_piece_destination (raw : jsstring) (k : Z) (w : jsstring) :
  let cleaned := cleanedOf raw in
  let tokens := tokensOf cleaned in
  castling cleaned = None ->
  pawnPushShape tokens = false ->
  pawnCaptureShape tokens = false ->
  firstPieceAt tokens k w ->
  ((forall i, ~ pairAt tokens i) -> sanFromSpeech raw = []) /\
  (forall i, lastPairAt tokens i ->
     sanFromSpeech raw =
     withSuffix tokens
       (mapGetStr pieceWords w
        ++ (if existsb isCaptureWord tokens then str "x" else [])
        ++ (orEmpty (at_ tokens i) ++ orEmpty (at_ tokens (i + 1)))
        ++ promoScan tokens)).
Proof.
  intros cleaned tokens Hcastle Hpush Hcap [Hk [Hw Hfirst]].
  assert (Hidx : findIndex (mapHas pieceWords) tokens = k)
    by (now apply findIndex_first with (w := w)).
  assert (Hraw : isEmpty raw = false).
  { destruct raw; [|reflexivity]. apply at_Some in Hk.
    change (Z.of_nat (length tokens)) with 0%Z in Hk. lia. }
  assert (Heq : sanFromSpeech raw =
                pieceMove tokens (promoScan tokens) (existsb isCaptureWord tokens) k).
  { unfold sanFromSpeech. rewrite Hraw. fold cleaned. rewrite Hcastle. fold tokens.
    unfold interpret. rewrite Hpush, Hcap, Hidx, isCapture_spec.
    destruct (Z.eqb_spec k (-1)) as [-> | _]; [discriminate Hk | reflexivity]. }
  rewrite Heq. unfold pieceMove. rewrite Hk. cbn [orEmpty]. split.
  - intros Hnone. now rewrite destScan_none.
  - intros i Hlast. rewrite (destScan_last _ _ Hlast).
    destruct Hlast as [[Hf Hr] _]. now rewrite (dest_nonempty _ _ Hf Hr).
Qed.

Lemma C6_piece_destination_witness :
  sanFromSpeech (str "knight from f three takes e five check") = str "Nxe5+".
Proof.
  assert (Hfirst :
    firstPieceAt (tokensOf (cleanedOf (str "knight from f three takes e five check")))
      0 (str "knight")).
  { repeat split. intros j w' Hj Hat. apply at_Some in Hat. destruct Hat as [Hat _]. lia. }
  assert (Hlast :
    lastPairAt (tokensOf (cleanedOf (str "knight from f three takes e five check"))) 5).
  { split; [split; reflexivity|]. intros j Hj Hpair.
    pose proof (pairAt_range _ _ Hpair) as Hrange.
    change (Z.of_nat (length _)) with 8%Z in Hrange.
    assert (j = 6%Z) as -> by lia.
    destruct Hpair as [Hf _]. vm_compute in Hf. discriminate Hf. }
  now rewrite (proj2 (C6_piece_destination
                        (str "knight from f three takes e five check") 0 (str "knight")
                        eq_refl eq_refl eq_refl Hfirst) 5%Z Hlast).
Defined.

(** ** The Phrase Normalizer *)

Lemma lowerAlnum_facts (c : ascii) :
  isLowerAlnum c = true ->
  lowerChar c = c /\ isSpace c = false /\ c <> hyphen /\ c <> space.
Proof.
  destruct c as [[] [] [] [] [] [] [] []]; intros H; try discriminate H;
    repeat split; try reflexivity; discriminate.
Qed.

Lemma map_fixed {A : Type} (f : A -> A) (l : list A) :
  (forall x, In x l -> f x = x) -> map f l = l.
Proof.
  induction l as [|x l IH]; intros H; simpl; trivial.
  rewrite H by now left. f_equal. apply IH. intros y Hy. apply H. now right.
Qed.

Lemma filter_fixed {A : Type} (p : A -> bool) (l : list A) :
  forallb p l = true -> filter p l = l.
Proof.
  induction l as [|x l IH]; simpl; trivial.
  intros H. apply andb_true_iff in H. destruct H as [-> H]. f_equal. now apply IH.
Qed.

Lemma forallb_filter {A : Type} (p : A -> bool) (l : list A) :
  forallb p (filter p l) = true.
Proof.
  apply forallb_forall. intros x Hx. now apply filter_In in Hx.
Qed.

Lemma trim_fixed (s : jsstring) :
  (forall c r, s = c :: r -> isSpace c = false) ->
  (forall r c, s = r ++ [c] -> isSpace c = false) ->
  trim s = s.
Proof.
  intros Hfirst Hlast. unfold trim.
  assert (Hs : trimStart s = s).
  { destruct s as [|c r]; trivial. simpl. now rewrite (Hfirst c r). }
  rewrite Hs. unfold trimEnd.
  destruct (rev s) as [|c r] eqn:E.
  - simpl. rewrite <- (rev_involutive s), E. reflexivity.
  - assert (Es : s = rev r ++ [c]) by (rewrite <- (rev_involutive s), E; reflexivity).
    simpl trimStart. rewrite (Hlast _ _ Es). now rewrite <- E, rev_involutive.
Qed.

Lemma numberWords_value (s : jsstring) :
  mapHas numberWords s = true -> In (mapGetStr numberWords s) (map (fun c => [c]) ranks).
Proof.
  unfold mapHas, mapGetStr. simpl mapGet.
  repeat (destruct (jsstring_eqb _ s); [intros _; simpl; tauto|]).
  discriminate.
Qed.

Lemma normToken_normal (t : jsstring) :
  normToken t = [] \/ normalToken (normToken t).
Proof.
  unfold normToken.
  set (s := filter isLowerAlnum (trim (toLowerCase t))).
  destruct (mapHas numberWords s) eqn:E.
  - right. apply numberWords_value in E. revert E.
    generalize (mapGetStr numberWords s). apply Forall_forall.
    repeat constructor; discriminate.
  - destruct s as [|c s'] eqn:Es; [now left|]. right. rewrite <- Es in *.
    repeat split; trivial; [rewrite Es; discriminate | apply forallb_filter].
Qed.

Lemma normalize_normal (raw : jsstring) : Forall normalToken (normalize raw).
Proof.
  unfold normalize, tokensOf. apply Forall_forall. intros t Ht.
  apply filter_In in Ht. destruct Ht as [Ht Hne].
  apply in_map_iff in Ht. destruct Ht as [t0 [<- _]].
  destruct (normToken_normal t0) as [E | H]; trivial.
  rewrite E in Hne. discriminate.
Qed.

Lemma normalToken_chars (t : jsstring) (c : ascii) :
  normalToken t -> In c t -> isLowerAlnum c = true.
Proof. intros [_ [H _]]. now apply forallb_forall. Qed.

Lemma join_chars (l : list jsstring) (c : ascii) :
  Forall normalToken l -> In c (join l) -> isLowerAlnum c = true \/ c = space.
Proof.
  induction 1 as [|t l Ht Hl IH]; [intros []|].
  destruct l as [|t' l].
  - intros Hc. left. now apply (normalToken_chars t).
  - change (join (t :: t' :: l)) with (t ++ space :: join (t' :: l)).
    intros Hc. apply in_app_or in Hc. destruct Hc as [Hc | [<- | Hc]]; auto.
    left. now apply (normalToken_chars t).
Qed.

Lemma collapse_word (c : ascii) (t : jsstring) (b : bool) (rest : jsstring) :
  forallb isLowerAlnum (c :: t) = true ->
  collapseFrom b ((c :: t) ++ rest) = (c :: t) ++ collapseFrom false rest.
Proof.
  revert c b. induction t as [|d t IH]; intros c b H;
    cbn [forallb] in H; apply andb_true_iff in H; destruct H as [Hc H];
    destruct (lowerAlnum_facts c Hc) as [_ [Hs _]];
    cbn [app collapseFrom]; rewrite Hs; f_equal.
  now apply (IH d false).
Qed.

Lemma normalToken_cons (t : jsstring) :
  normalToken t -> exists c t', t = c :: t' /\ forallb isLowerAlnum (c :: t') = true.
Proof.
  intros [Hne [H _]]. destruct t as [|c t']; [contradiction|]. now exists c, t'.
Qed.

Lemma collapse_join (l : list jsstring) (b : bool) :
  Forall normalToken l -> collapseFrom b (join l) = join l.
Proof.
  intros H. revert b. induction H as [|t l Ht Hl IH]; intros b; [reflexivity|].
  destruct (normalToken_cons t Ht) as [c [t' [-> Hall]]].
  destruct l as [|u l].
  - change (join [c :: t']) with (c :: t'). rewrite <- (app_nil_r (c :: t')) at 1.
    rewrite collapse_word by trivial. simpl. now rewrite app_nil_r.
  - change (join ((c :: t') :: u :: l)) with ((c :: t') ++ space :: join (u :: l)).
    rewrite collapse_word by trivial. f_equal.
    change (collapseFrom false (space :: join (u :: l)))
      with (space :: collapseFrom true (join (u :: l))).
    f_equal. apply IH.
Qed.

Lemma join_first (l : list jsstring) (c : ascii) (r : jsstring) :
  Forall normalToken l -> join l = c :: r -> isLowerAlnum c = true.
Proof.
  intros H E. destruct H as [|t l Ht Hl]; [discriminate|].
  destruct (normalToken_cons t Ht) as [d [t' [-> Hall]]].
  simpl in Hall. apply andb_true_iff in Hall. destruct Hall as [Hd _].
  destruct l; simpl in E; injection E as <- _; trivial.
Qed.

Lemma join_last (l : list jsstring) (r : jsstring) (c : ascii) :
  Forall normalToken l -> join l = r ++ [c] -> isLowerAlnum c = true.
Proof.
  intros H. revert r. induction H as [|t l Ht Hl IH]; intros r E.
  - destruct r; discriminate.
  - destruct l as [|u l].
    + apply (normalToken_chars t); trivial. simpl in E. rewrite E.
      apply in_or_app. right. now left.
    + change (join (t :: u :: l)) with (t ++ space :: join (u :: l)) in E.
      destruct (normalToken_cons u ltac:(now inversion Hl)) as [d [u' [Eu _]]].
      assert (Hne : join (u :: l) <> []) by (rewrite Eu; destruct l; discriminate).
      destruct (exists_last Hne) as [r' [c' E']].
      rewrite E' in E. change (t ++ space :: r' ++ [c']) with (t ++ (space :: r') ++ [c']) in E.
      rewrite app_assoc in E. apply app_inj_tail in E. destruct E as [_ <-].
      now apply (IH r').
Qed.

Lemma split_word (t rest : jsstring) :
  forallb isLowerAlnum t = true -> split (t ++ space :: rest) = t :: split rest.
Proof.
  induction t as [|c t IH]; intros H.
  - simpl. destruct (ascii_dec space space); [reflexivity | contradiction].
  - simpl in H. apply andb_true_iff in H. destruct H as [Hc H].
    destruct (lowerAlnum_facts c Hc) as [_ [_ [_ Hsp]]].
    simpl. destruct (ascii_dec c space); [contradiction|]. now rewrite IH.
Qed.

Lemma split_single (t : jsstring) :
  forallb isLowerAlnum t = true -> split t = [t].
Proof.
  induction t as [|c t IH]; intros H; [reflexivity|].
  simpl in H. apply andb_true_iff in H. destruct H as [Hc H].
  destruct (lowerAlnum_facts c Hc) as [_ [_ [_ Hsp]]].
  simpl. destruct (ascii_dec c space); [contradiction|]. now rewrite IH.
Qed.

Lemma split_join (l : list jsstring) :
  Forall normalToken l -> l <> [] -> split (join l) = l.
Proof.
  induction 1 as [|t l Ht Hl IH]; intros Hne; [contradiction|].
  destruct Ht as [_ [Hall _]]. destruct l as [|u l].
  - now apply split_single.
  - change (join (t :: u :: l)) with (t ++ space :: join (u :: l)).
    rewrite split_word by trivial. f_equal. now apply IH.
Qed.

Lemma normToken_fixed (t : jsstring) : normalToken t -> normToken t = t.
Proof.
  intros Ht. pose proof Ht as [Hne [Hall Hnum]]. unfold normToken.
  assert (Hc : forall c, In c t -> isLowerAlnum c = true)
    by (intros c; now apply normalToken_chars).
  assert (E1 : toLowerCase t = t).
  { apply map_fixed. intros c Hin. now apply lowerAlnum_facts, Hc. }
  assert (E2 : trim t = t).
  { apply trim_fixed.
    - intros c r E. apply lowerAlnum_facts, Hc. rewrite E. now left.
    - intros r c E. apply lowerAlnum_facts, Hc. rewrite E. apply in_or_app. right. now left. }
  rewrite E1, E2, (filter_fixed _ _ Hall), Hnum. reflexivity.
Qed.

Lemma cleanedOf_join (l : list jsstring) :
  Forall normalToken l -> cleanedOf (join l) = join l.
Proof.
  intros H. unfold cleanedOf.
  assert (E1 : toLowerCase (join l) = join l).
  { apply map_fixed. intros c Hc.
    destruct (join_chars _ _ H Hc) as [Hc' | ->]; [now apply lowerAlnum_facts | reflexivity]. }
  assert (E2 : replaceHyphens (join l) = join l).
  { apply map_fixed. intros c Hc. destruct (ascii_dec c hyphen) as [-> | _]; trivial.
    destruct (join_chars _ _ H Hc) as [Hc' | Hc']; discriminate Hc'. }
  rewrite E1, E2. unfold collapseSpaces. rewrite collapse_join by trivial.
  apply trim_fixed.
  - intros c r E. now apply lowerAlnum_facts, (join_first l c r).
  - intros r c E. now apply lowerAlnum_facts, (join_last l r c).
Qed.

Lemma normalize_join (l : list jsstring) :
  Forall normalToken l -> normalize (join l) = l.
Proof.
  intros H. unfold normalize. rewrite cleanedOf_join by trivial. unfold tokensOf.
  destruct l as [|t l]; [reflexivity|].
  rewrite split_join by (trivial; discriminate).
  rewrite map_fixed.
  - apply filter_fixed, forallb_forall. intros u Hu.
    rewrite Forall_forall in H. destruct (H u Hu) as [Hne _]. now destruct u.
  - intros u Hu. apply normToken_fixed. rewrite Forall_forall in H. now apply H.
Qed.

(** C8: the normalizer is idempotent: the tokens of a transcript, joined
    with single spaces and normalized again, are the same tokens. *)
Theorem C8_normalize_idempotent (raw : jsstring) :
  normalize (join (normalize raw)) = normalize raw.
Proof. apply normalize_join, normalize_normal. Qed.

(** ** The scenarios of the specification *)

Example scenario_A : sanFromSpeech (str "e four") = str "e4".
Proof. vm_compute. reflexivity. Qed.

Example scenario_B : sanFromSpeech (str "knight f three") = str "Nf3".
Proof. vm_compute. reflexivity. Qed.

Example scenario_C : sanFromSpeech (str "d takes e five") = str "dxe5".
Proof. vm_compute. reflexivity. Qed.

Example scenario_D : sanFromSpeech (str "queen side castle") = str "O-O-O".
Proof. vm_compute. reflexivity. Qed.

Example scenario_E : sanFromSpeech (str "bishop takes e five check") = str "Bxe5+".
Proof. vm_compute. reflexivity. Qed.

Example scenario_F :
  let s := run (collaborators := Toy.collaborators)
             [ClickStart; RecogResult (str "e four"); RecogResult (str "nope")] init in
  interpretConfirmCommand (str "nope") = Cmd.CANCEL
  /\ mode s = Mode.MOVE /\ pendingSan s = [].
Proof. vm_compute. repeat split. Qed.

(** ** The dialogue *)

Arguments sanFromSpeech : simpl never.
Arguments interpretConfirmCommand : simpl never.
Arguments uciToMove : simpl never.
Arguments splitSpaces : simpl never.
Arguments includes : simpl never.
Arguments startsWith : simpl never.

Lemma isEmpty_false (s : jsstring) : isEmpty s = false <-> s <> [].
Proof. destruct s; simpl; split; congruence. Qed.

Section DialogueProperties.

Context {collaborators : Collaborators}.

Lemma good_idle (s : State) :
  pendingIffConfirm s -> live s = false -> good s.
Proof. intros Hp Hl. split; trivial. intros H. congruence. Qed.

Lemma good_move (s : State) :
  mode s = Mode.MOVE -> pendingSan s = [] -> live s = false -> good s.
Proof.
  intros Hm Hp Hl. apply good_idle; trivial.
  unfold pendingIffConfirm. rewrite Hm, Hp. split; intros; congruence.
Qed.

Lemma stopListening_idle (s : State) :
  sessionSound s -> live (stopListening s) = false.
Proof.
  intros Hs. unfold stopListening. destruct (recogRef s) eqn:E; cbn; trivial.
  destruct (live s) eqn:El; trivial.
  destruct (Hs El) as [_ [cb [Hcb _]]]. congruence.
Qed.

Lemma stopListening_fields (s : State) :
  mode (stopListening s) = mode s /\ pendingSan (stopListening s) = pendingSan s.
Proof. unfold stopListening. destruct (recogRef s); cbn; auto. Qed.

Lemma startListeningForMove_good (r : Render) (s : State) :
  good s -> good (startListeningForMove r s).
Proof.
  intros Hg. unfold startListeningForMove. destruct (r_busy r) eqn:Er; trivial.
  unfold startListeningInternal. destruct SpeechRecognition eqn:Esr; cbn [negb].
  - split.
    + unfold pendingIffConfirm. cbn. destruct (recogRef s); cbn; split; intros; congruence.
    + intros _. split; trivial. exists (onMove r). cbn. repeat split; trivial.
      intros r' H. discriminate H.
  - apply good_move; trivial. cbn. destruct (live s) eqn:El; trivial.
    destruct (proj2 Hg El) as [Hsr _]. congruence.
Qed.

Lemma startListeningForConfirm_good (r : Render) (s : State) :
  good s -> mode s = Mode.CONFIRM -> good (startListeningForConfirm r s).
Proof.
  intros Hg Hm. unfold startListeningForConfirm. destruct (r_busy r) eqn:Er; trivial.
  unfold startListeningInternal. destruct SpeechRecognition eqn:Esr; cbn [negb].
  - split.
    + destruct Hg as [Hp _]. unfold pendingIffConfirm in *.
      cbn. destruct (recogRef s); cbn; trivial.
    + intros _. split; trivial. exists (onConfirm r).
      cbn. destruct (recogRef s); cbn; repeat split; trivial.
  - exact Hg.
Qed.

Lemma applyPlayerSan_good (r : Render) (san : jsstring) (s : State) :
  good s -> live s = false -> good (applyPlayerSan r san s).
Proof.
  intros Hg Hl. unfold applyPlayerSan. destruct (r_busy r); trivial.
  cbn [chessRef emit]. destruct (moveSan (chessRef s) san) as [[msan chess]|].
  - destruct (isCheckmate chess); [exact Hg|].
    destruct (isDraw chess); [exact Hg|].
    unfold requestEngineMove, postMessage.
    apply good_move; destruct SpeechRecognition; trivial.
  - apply startListeningForMove_good. apply good_move; trivial.
Qed.

Lemma moveResult_good (r : Render) (raw : jsstring) (s : State) :
  good s -> live s = false -> good (moveResult r raw s).
Proof.
  intros Hg Hl. unfold moveResult. destruct (isEmpty (sanFromSpeech raw)) eqn:E.
  - apply startListeningForMove_good. exact Hg.
  - apply startListeningForConfirm_good; trivial. apply good_idle; trivial.
    unfold pendingIffConfirm. cbn. apply isEmpty_false in E. tauto.
Qed.

Lemma confirmResult_good (r : Render) (raw : jsstring) (s : State) :
  good s -> live s = false -> mode s = Mode.CONFIRM -> good (confirmResult r raw s).
Proof.
  intros Hg Hl Hm. unfold confirmResult.
  assert (Hstop : good (stopListening s) /\ live (stopListening s) = false).
  { pose proof (stopListening_fields s) as [E1 E2].
    pose proof (stopListening_idle s (proj2 Hg)) as E3.
    split; trivial. apply good_idle; trivial.
    destruct Hg as [Hp _]. unfold pendingIffConfirm in *. now rewrite E1, E2. }
  destruct Hstop as [Hgs Hls].
  destruct (interpretConfirmCommand raw).
  - now apply applyPlayerSan_good.
  - apply startListeningForMove_good. apply good_move; trivial.
  - apply startListeningForConfirm_good; [exact Hg | exact Hm].
  - destruct (isEmpty (sanFromSpeech raw)) eqn:E; cbn [negb].
    + apply startListeningForConfirm_good; [exact Hg | exact Hm].
    + apply startListeningForConfirm_good; trivial. apply good_idle; trivial.
      unfold pendingIffConfirm. cbn. apply isEmpty_false in E. tauto.
Qed.

Lemma onmessage_good (line : jsstring) (s : State) :
  good s -> good (onmessage line s).
Proof.
  intros Hg. unfold onmessage.
  destruct (isEmpty line); trivial.
  destruct (includes line (str "uciok")); trivial.
  destruct (startsWith line (str "bestmove")); trivial.
  destruct (uciToMove _) as [moveObj|].
  - assert (Hg' : forall s', good s' -> 
      good (if isCheckmate (chessRef (setBusy false s'))
            then speak (str "Checkmate.") (setStatus StCheckmate (setBusy false s'))
            else if isDraw (chessRef (setBusy false s'))
            then speak (str "Draw.") (setStatus StDraw (setBusy false s'))
            else startListeningForMove firstRender (setBusy false s'))).
    { intros s' Hs'. destruct (isCheckmate _); [exact Hs'|].
      destruct (isDraw _); [exact Hs'|].
      apply startListeningForMove_good. exact Hs'. }
    apply Hg'. destruct (moveObject (chessRef s) moveObj) as [[msan chess]|]; exact Hg.
  - apply startListeningForMove_good. exact Hg.
Qed.

Lemma step_good (s : State) (ev : Event) :
  inTime s ev = true -> good s -> good (step s ev).
Proof.
  intros Ht Hg. destruct ev; cbn [step]; cbn [inTime] in Ht; try discriminate Ht.
  - destruct (busy s); trivial. unfold newGame.
    apply startListeningForMove_good, good_move; trivial.
    cbn. apply (stopListening_idle s (proj2 Hg)).
  - destruct (busy s || listening s); trivial. now apply startListeningForMove_good.
  - destruct (listening s); trivial. apply good_idle.
    + destruct Hg as [Hp _]. unfold pendingIffConfirm in *.
      now destruct (stopListening_fields s) as [-> ->].
    + apply (stopListening_idle s (proj2 Hg)).
  - destruct (recogRef s); trivial.
  - destruct (recogRef s) as [cb|] eqn:Ecb; trivial.
    assert (Hg' : good (set_live false s)) by (apply good_idle; [apply Hg | reflexivity]).
    destruct cb as [r | r]; cbn [onresult].
    + now apply moveResult_good.
    + apply confirmResult_good; trivial.
      destruct (proj2 Hg Ht) as [_ [cb [Hcb [_ Hconf]]]].
      cbn. apply (Hconf r). congruence.
  - destruct (recogRef s); trivial. now apply good_move.
  - exact Hg.
  - destruct SpeechRecognition; trivial. now apply onmessage_good.
Qed.

Lemma init_good : good init.
Proof. apply good_move; reflexivity. Qed.

Lemma run_good (events : list Event) (s : State) :
  allInTime events s -> good s -> good (run events s).
Proof.
  revert s. induction events as [|ev events IH]; intros s Ht Hg; trivial.
  destruct Ht as [Hev Ht]. apply IH; trivial. now apply step_good.
Qed.

(** ** The recognizers *)

Lemma recognizersSound_keep (s s' : State) :
  recogRef s' = recogRef s -> retired s' = retired s ->
  (live s' = true -> live s = true) ->
  recognizersSound s -> recognizersSound s'.
Proof.
  intros Er Et Hl [H1 [H2 H3]]. unfold recognizersSound, recognizers in *.
  rewrite Er, Et. auto.
Qed.

Lemma stopListening_sound (s : State) :
  recognizersSound s -> recognizersSound (stopListening s).
Proof.
  apply recognizersSound_keep; unfold stopListening;
    destruct (recogRef s) eqn:E; cbn; rewrite ?E; solve [auto | discriminate].
Qed.

Lemma startListeningInternal_sound (cb : Callback) (s : State) :
  r_busy (renderOfCallback cb) = false ->
  recognizersSound s -> recognizersSound (startListeningInternal cb s).
Proof.
  intros Hb Hs. unfold startListeningInternal.
  destruct SpeechRecognition eqn:Esr; cbn [negb]; [|exact Hs].
  destruct Hs as [_ [_ H3]]. unfold recognizersSound, recognizers in *.
  split; [intros _; exact Esr | split].
  - intros _. unfold newRecognizer, stopListening.
    destruct (recogRef s); cbn; discriminate.
  - assert (E : retired (emit Started (set_live true (newRecognizer cb (stopListening s))))
                = retired s ++ match recogRef s with Some c => [c] | None => [] end)
      by (unfold newRecognizer, stopListening; destruct (recogRef s) eqn:E; cbn;
          now rewrite ?E).
    assert (E' : recogRef (emit Started (set_live true (newRecognizer cb (stopListening s))))
                 = Some cb)
      by (unfold newRecognizer, stopListening; now destruct (recogRef s)).
    rewrite E, E'. apply Forall_app. split; trivial. now repeat constructor.
Qed.

Lemma startListeningForMove_sound (r : Render) (s : State) :
  recognizersSound s -> recognizersSound (startListeningForMove r s).
Proof.
  intros Hs. unfold startListeningForMove. destruct (r_busy r) eqn:Er; trivial.
  apply startListeningInternal_sound; [exact Er | exact Hs].
Qed.

Lemma startListeningForConfirm_sound (r : Render) (s : State) :
  recognizersSound s -> recognizersSound (startListeningForConfirm r s).
Proof.
  intros Hs. unfold startListeningForConfirm. destruct (r_busy r) eqn:Er; trivial.
  apply startListeningInternal_sound; [exact Er | exact Hs].
Qed.

Lemma applyPlayerSan_sound (r : Render) (san : jsstring) (s : State) :
  recognizersSound s -> recognizersSound (applyPlayerSan r san s).
Proof.
  intros Hs. unfold applyPlayerSan. destruct (r_busy r); trivial.
  cbn [chessRef emit]. destruct (moveSan (chessRef s) san) as [[msan chess]|].
  - destruct (isCheckmate chess); [exact Hs|].
    destruct (isDraw chess); [exact Hs|].
    revert Hs. unfold requestEngineMove, postMessage.
    apply recognizersSound_keep; now destruct SpeechRecognition.
  - apply startListeningForMove_sound. exact Hs.
Qed.

Lemma onresult_sound (cb : Callback) (raw : jsstring) (s : State) :
  recognizersSound s -> recognizersSound (onresult cb raw s).
Proof.
  intros Hs. destruct cb as [r | r]; cbn [onresult].
  - unfold moveResult. destruct (isEmpty _).
    + apply startListeningForMove_sound. exact Hs.
    + apply startListeningForConfirm_sound. exact Hs.
  - unfold confirmResult. destruct (interpretConfirmCommand raw).
    + now apply applyPlayerSan_sound, stopListening_sound.
    + apply startListeningForMove_sound.
      generalize (stopListening_sound s Hs). now apply recognizersSound_keep.
    + apply startListeningForConfirm_sound. exact Hs.
    + destruct (negb _); apply startListeningForConfirm_sound; exact Hs.
Qed.

Lemma onmessage_sound (line : jsstring) (s : State) :
  recognizersSound s -> recognizersSound (onmessage line s).
Proof.
  intros Hs. unfold onmessage.
  destruct (isEmpty line); trivial.
  destruct (includes line (str "uciok")); trivial.
  destruct (startsWith line (str "bestmove")); trivial.
  destruct (uciToMove _) as [moveObj|].
  - destruct (moveObject (chessRef s) moveObj) as [[msan chess]|];
      (destruct (isCheckmate _); [exact Hs|]);
      (destruct (isDraw _); [exact Hs|]);
      apply startListeningForMove_sound; exact Hs.
  - apply startListeningForMove_sound. exact Hs.
Qed.

Lemma step_sound (s : State) (ev : Event) :
  recognizersSound s -> recognizersSound (step s ev).
Proof.
  intros Hs. destruct ev; cbn [step].
  - destruct (busy s); trivial. unfold newGame.
    apply startListeningForMove_sound.
    generalize (stopListening_sound s Hs). now apply recognizersSound_keep.
  - destruct (busy s || listening s); trivial. now apply startListeningForMove_sound.
  - destruct (listening s); trivial. now apply stopListening_sound.
  - destruct (recogRef s); trivial.
  - destruct (recogRef s) as [cb|]; trivial. apply onresult_sound.
    revert Hs. apply recognizersSound_keep; trivial. discriminate.
  - destruct (recogRef s); trivial.
    revert Hs. apply recognizersSound_keep; trivial. discriminate.
  - exact Hs.
  - destruct (nth_error (retired s) n); trivial. now apply onresult_sound.
  - destruct (nth_error (retired s) n); trivial.
  - destruct SpeechRecognition; trivial. now apply onmessage_sound.
Qed.

Lemma init_sound : recognizersSound init.
Proof.
  unfold recognizersSound, recognizers. cbn.
  repeat split; [congruence | discriminate | constructor].
Qed.

Lemma run_sound (events : list Event) (s : State) :
  recognizersSound s -> recognizersSound (run events s).
Proof.
  revert s. induction events as [|ev events IH]; intros s Hs; trivial.
  apply IH. now apply step_sound.
Qed.

(** What [recognizersSound] says of a started session. *)
Lemma sound_session (s : State) :
  recognizersSound s -> live s = true ->
  SpeechRecognition = true /\
  exists cb, recogRef s = Some cb /\ r_busy (renderOfCallback cb) = false.
Proof.
  intros [H1 [H2 H3]] Hl. specialize (H2 Hl). unfold recognizers in *.
  destruct (recogRef s) as [cb|]; [|congruence]. split.
  - apply H1. now destruct (retired s).
  - exists cb. split; trivial.
    apply Forall_app in H3. destruct H3 as [_ H3]. now inversion H3.
Qed.

(** A callback of a retired recognizer was made by a render that was not
    busy. *)
Lemma sound_retired (s : State) (n : nat) (cb : Callback) :
  recognizersSound s -> nth_error (retired s) n = Some cb ->
  SpeechRecognition = true /\ r_busy (renderOfCallback cb) = false.
Proof.
  intros [H1 [_ H3]] Hn. unfold recognizers in *. split.
  - apply H1. destruct (retired s); [now destruct n | discriminate].
  - apply Forall_app in H3. destruct H3 as [H3 _].
    rewrite Forall_forall in H3. apply H3. now apply nth_error_In in Hn.
Qed.

(** What the confirm callback does with a transcript that is no command
    but gives a SAN: it stores the SAN as pending and leaves the mode as it
    is, whatever it is. *)
Lemma confirmResult_new_move (r : Render) (raw : jsstring) (s : State) :
  interpretConfirmCommand raw = Cmd.UNKNOWN -> sanFromSpeech raw <> [] ->
  r_busy r = false ->
  let s' := confirmResult r raw s in
  mode s' = mode s /\ pendingSan s' = sanFromSpeech raw.
Proof.
  intros Hcmd Hsan Hr. cbv zeta. unfold confirmResult. rewrite Hcmd.
  apply isEmpty_false in Hsan. rewrite Hsan. cbn [negb].
  unfold startListeningForConfirm, startListeningInternal, newRecognizer, stopListening.
  rewrite Hr. destruct SpeechRecognition; cbn; [|auto].
  destruct (recogRef s); cbn; auto.
Qed.

(** C1: the invariant breaks when a recognizer that was stopped answers.
    From the first render, after Start, the transcript e four and New game,
    the mode is MOVE with nothing pending, and the confirm recognizer that
    New game stopped is the second of the recognizers made.  When it then
    gives the transcript knight f three, its callback stores Nf3 as pending
    and leaves the mode as it is: a SAN is pending in mode MOVE. *)
Theorem C1_late_result_breaks_invariant :
  SpeechRecognition = true ->
  let s2 := run [ClickStart; RecogResult (str "e four")] init in
  let s3 := step s2 ClickNewGame in
  let s4 := step s3 (RetiredResult 1 (str "knight f three")) in
  (mode s2 = Mode.CONFIRM /\ pendingSan s2 = str "e4"
   /\ recogRef s2 = Some (onConfirm firstRender)) /\
  (mode s3 = Mode.MOVE /\ pendingSan s3 = []
   /\ nth_error (retired s3) 1 = Some (onConfirm firstRender)
   /\ last (effects s3) Stopped = Started) /\
  interpretConfirmCommand (str "knight f three") = Cmd.UNKNOWN /\
  mode s4 = Mode.MOVE /\ pendingSan s4 = str "Nf3" /\ ~ pendingIffConfirm s4.
Proof.
  destruct collaborators as [C new mv mvo mate draw fenOf sr]. cbn [SpeechRecognition].
  intros ->. cbv zeta.
  set (s4 := step _ (RetiredResult _ _)).
  assert (Hm : mode s4 = Mode.MOVE) by (vm_compute; reflexivity).
  assert (Hp : pendingSan s4 = str "Nf3") by (vm_compute; reflexivity).
  refine (conj _ (conj _ (conj _ (conj Hm (conj Hp _))))).
  - vm_compute. repeat split.
  - vm_compute. repeat split.
  - vm_compute. reflexivity.
  - unfold pendingIffConfirm. rewrite Hm, Hp. intros [H _].
    assert (E : Mode.MOVE = Mode.CONFIRM) by (apply H; vm_compute; discriminate).
    discriminate E.
Qed.

(** At game over [applyPlayerSan] returns before it resets the dialogue:
    the mode and the pending SAN stay as they were. *)
Lemma applyPlayerSan_game_over (r : Render) (san msan : jsstring) (chess : Chess) (s : State) :
  r_busy r = false ->
  moveSan (chessRef s) san = Some (msan, chess) ->
  isCheckmate chess || isDraw chess = true ->
  let s' := applyPlayerSan r san s in
  mode s' = mode s /\ pendingSan s' = pendingSan s /\ live s' = live s.
Proof.
  intros Hr Hm Hover. unfold applyPlayerSan. rewrite Hr. cbn [chessRef emit]. rewrite Hm.
  destruct (isCheckmate chess); [now cbn|].
  cbn in Hover. rewrite Hover. now cbn.
Qed.

(** C7: when the recognizer reports an error, the dialogue goes back to
    mode MOVE with no pending SAN, tells the user by the status and by
    voice, and starts no new session; whereas a transcript that gives no
    SAN in mode MOVE is answered by a new session with the same callback. *)
Theorem C7_speech_error_no_retry (events : list Event) :
  let s := run events init in
  live s = true ->
  (let s' := step s RecogError in
   mode s' = Mode.MOVE /\ pendingSan s' = [] /\ status s' = StSpeechError
   /\ effects s' = effects s ++ [Spoken (str "Speech error. Please click Start.")]
   /\ live s' = false) /\
  (forall r raw, recogRef s = Some (onMove r) -> sanFromSpeech raw = [] ->
   let s' := step s (RecogResult raw) in
   mode s' = Mode.MOVE /\ pendingSan s' = [] /\ status s' = StListening
   /\ effects s' = effects s ++ [Spoken (str "I did not catch that. Please repeat.");
                                 Stopped; Started]
   /\ live s' = true /\ recogRef s' = Some (onMove r)).
Proof.
  intros s Hl. split.
  - destruct (sound_session s (run_sound events init init_sound) Hl)
      as [_ [cb [Hcb _]]].
    cbn [step]. rewrite Hcb. cbn. repeat split; reflexivity.
  - intros r raw Hcb Hraw.
    destruct (sound_session s (run_sound events init init_sound) Hl)
      as [Hsr [cb [Hcb' Hbusy]]].
    rewrite Hcb in Hcb'. injection Hcb' as <-. cbn in Hbusy.
    cbn [step]. rewrite Hcb. cbn [onresult]. unfold moveResult. rewrite Hraw.
    cbn [isEmpty]. unfold startListeningForMove. rewrite Hbusy.
    unfold startListeningInternal. rewrite Hsr. cbn [negb].
    unfold newRecognizer, stopListening. cbn. rewrite Hcb. cbn. rewrite <- !app_assoc.
    repeat split; reflexivity.
Qed.

Lemma handedSans_app (l l' : list Effect) :
  handedSans (l ++ l') = handedSans l ++ handedSans l'.
Proof. apply flat_map_app. Qed.

Lemma startListeningForMove_handed (r : Render) (s : State) :
  handedSans (effects (startListeningForMove r s)) = handedSans (effects s).
Proof.
  unfold startListeningForMove, startListeningInternal, newRecognizer, stopListening.
  destruct (r_busy r); trivial. destruct SpeechRecognition; trivial.
  cbn. destruct (recogRef s); cbn; rewrite !handedSans_app; cbn; now rewrite ?app_nil_r.
Qed.

(** What the confirm callback does on a CONFIRM verdict: the SAN handed to
    the move application is the [pendingSan] of the render [r] that made the
    callback.  A rejected SAN resets the dialogue, an applied one too unless
    the game is over. *)
Lemma confirmResult_confirm (r : Render) (raw : jsstring) (s : State) :
  interpretConfirmCommand raw = Cmd.CONFIRM -> r_busy r = false ->
  let s' := confirmResult r raw s in
  handedSans (effects s') = handedSans (effects s) ++ [r_pendingSan r] /\
  match moveSan (chessRef s) (r_pendingSan r) with
  | None => mode s' = Mode.MOVE /\ pendingSan s' = []
  | Some (msan, chess) =>
      if isCheckmate chess || isDraw chess
      then mode s' = mode s /\ pendingSan s' = pendingSan s
      else mode s' = Mode.MOVE /\ pendingSan s' = [] /\ busy s' = true
  end.
Proof.
  intros Hcmd Hr. cbv zeta. unfold confirmResult. rewrite Hcmd.
  pose proof (stopListening_fields s) as [Em Ep].
  assert (Ec : chessRef (stopListening s) = chessRef s)
    by (unfold stopListening; destruct (recogRef s); reflexivity).
  assert (Eh : handedSans (effects (stopListening s)) = handedSans (effects s)).
  { unfold stopListening. destruct (recogRef s); cbn; trivial.
    rewrite handedSans_app. cbn. now rewrite app_nil_r. }
  revert Em Ep Ec Eh. generalize (stopListening s). intros s1 Em Ep Ec Eh.
  unfold applyPlayerSan. rewrite Hr. cbn [chessRef emit]. rewrite Ec.
  destruct (moveSan (chessRef s) (r_pendingSan r)) as [[msan chess]|].
  - destruct (isCheckmate chess); cbn [orb].
    { cbn. rewrite !handedSans_app, Eh. cbn. rewrite app_nil_r. auto. }
    destruct (isDraw chess).
    { cbn. rewrite !handedSans_app, Eh. cbn. rewrite app_nil_r. auto. }
    unfold requestEngineMove, postMessage. split.
    + destruct SpeechRecognition; cbn; rewrite !handedSans_app, Eh; cbn;
        now rewrite ?app_nil_r.
    + destruct SpeechRecognition; cbn; auto.
  - split.
    + rewrite startListeningForMove_handed. cbn. rewrite !handedSans_app, Eh. cbn.
      now rewrite app_nil_r.
    + unfold startListeningForMove, startListeningInternal, newRecognizer, stopListening.
      rewrite Hr. destruct SpeechRecognition; cbn; [|auto].
      destruct (recogRef s1); cbn; auto.
Qed.

(** C2: from the first render, after Start and the transcript e four, the
    mode is CONFIRM and e4 is pending; on the transcript confirm the move
    application is handed the empty string, the [pendingSan] of the render
    whose callback listens, and not e4.  A collaborator that rejects the
    empty string leads to mode MOVE and the illegal move message. *)
Theorem C2_confirm_hands_stale_san :
  SpeechRecognition = true ->
  let s2 := run [ClickStart; RecogResult (str "e four")] init in
  let s3 := step s2 (RecogResult (str "confirm")) in
  (mode s2 = Mode.CONFIRM /\ pendingSan s2 = str "e4"
   /\ recogRef s2 = Some (onConfirm firstRender) /\ live s2 = true) /\
  interpretConfirmCommand (str "confirm") = Cmd.CONFIRM /\
  handedSans (effects s3) = [ [] ] /\
  (moveSan newChess [] = None ->
   mode s3 = Mode.MOVE /\ pendingSan s3 = [] /\ status s3 = StListening
   /\ In (Spoken (str "Illegal move. Please try again.")) (effects s3)).
Proof.
  destruct collaborators as [C new mv mvo mate draw fenOf sr]. cbn [SpeechRecognition].
  intros ->. cbv zeta. refine (conj _ (conj _ (conj _ _))).
  - vm_compute. repeat split.
  - vm_compute. reflexivity.
  - destruct (mv new []) as [[msan chess]|] eqn:E; vm_compute; rewrite E;
      [destruct (mate chess); [|destruct (draw chess)]|]; reflexivity.
  - cbn [moveSan newChess]. intros E. vm_compute. rewrite E. repeat split. tauto.
Qed.

End DialogueProperties.

Lemma C1_late_result_breaks_invariant_witness :
  let s2 := run (collaborators := Toy.collaborators)
              [ClickStart; RecogResult (str "e four")] init in
  let s3 := step s2 ClickNewGame in
  let s4 := step s3 (RetiredResult 1 (str "knight f three")) in
  mode s4 = Mode.MOVE /\ pendingSan s4 = str "Nf3".
Proof.
  exact (let H := C1_late_result_breaks_invariant (collaborators := Toy.collaborators)
                    eq_refl in
         conj (proj1 (proj2 (proj2 (proj2 H))))
              (proj1 (proj2 (proj2 (proj2 (proj2 H)))))).
Defined.

Lemma C7_speech_error_no_retry_witness :
  let s := run (collaborators := Toy.collaborators) [ClickStart] init in
  live s = true /\
  live (step s RecogError) = false /\
  live (step s (RecogResult (str "..."))) = true.
Proof.
  cbv zeta.
  pose proof (C7_speech_error_no_retry (collaborators := Toy.collaborators)
                [ClickStart] eq_refl) as [[_ [_ [_ [_ H1]]]] H2].
  specialize (H2 {| r_busy := false; r_pendingSan := [] |} (str "...") eq_refl
                 ltac:(vm_compute; reflexivity)).
  destruct H2 as [_ [_ [_ [_ [H2 _]]]]].
  exact (conj eq_refl (conj H1 H2)).
Defined.

Lemma C2_confirm_hands_stale_san_witness :
  handedSans
    (effects (step (run (collaborators := Toy.collaborators)
                      [ClickStart; RecogResult (str "e four")] init)
                (RecogResult (str "confirm")))) = [ [] ].
Proof.
  exact (proj1 (proj2 (proj2
           (C2_confirm_hands_stale_san (collaborators := Toy.collaborators) eq_refl)))).
Defined.

(** * Further properties *)

(** ** Castling *)

Lemma someIncluded_or3 (t a b c : jsstring) :
  includes t a || includes t b || includes t c = someIncluded t [a; b; c].
Proof. unfold someIncluded. simpl. now rewrite orb_false_r, orb_assoc. Qed.

(** X1: a transcript whose cleaned form holds castle and a king side word
    gives O-O, whatever else it holds (queen side words, a pawn push, check
    or mate words: no suffix is added); with castle, no king side word and a
    queen side word it gives O-O-O. *)
Theorem X1_castling_first (raw : jsstring) :
  let cleaned := cleanedOf raw in
  raw <> [] -> contains cleaned (str "castle") ->
  (matches cleaned kingSideWords -> sanFromSpeech raw = str "O-O") /\
  (~ matches cleaned kingSideWords -> matches cleaned queenSideWords ->
   sanFromSpeech raw = str "O-O-O").
Proof.
  intros cleaned Hraw Hc. apply includes_spec in Hc.
  unfold sanFromSpeech. destruct raw as [|c raw]; [contradiction|].
  cbn [isEmpty]. fold cleaned. unfold castling. rewrite Hc. cbn [andb].
  rewrite !someIncluded_or3. fold kingSideWords queenSideWords. split.
  - intros Hk. apply someIncluded_spec in Hk. now rewrite Hk.
  - intros Hk Hq. apply someIncluded_false in Hk. apply someIncluded_spec in Hq.
    now rewrite Hk, Hq.
Qed.

Lemma X1_castling_first_witness :
  sanFromSpeech (str "e 4 Castle long, short, checkmate") = str "O-O".
Proof.
  apply (X1_castling_first (str "e 4 Castle long, short, checkmate")).
  - discriminate.
  - now exists (str "e 4 "), (str " long, short, checkmate").
  - exists (str "short"). split; [simpl; tauto|].
    now exists (str "e 4 castle long, "), (str ", checkmate").
Defined.

(** ** The promotion scan *)

(** A loop that overwrites its variable at every match keeps the value of
    the last match. *)
Lemma lastMatch_fold {A : Type} (test : nat -> bool) (val : nat -> A)
    (a n : nat) (init : A) :
  let r := fold_left (fun acc k => if test k then val k else acc) (seq a n) init in
  ((forall k, a <= k < a + n -> test k = false) -> r = init) /\
  (forall k, a <= k < a + n -> test k = true ->
     (forall k', k < k' < a + n -> test k' = false) -> r = val k).
Proof.
  induction n as [|n [IH0 IH1]]; cbv zeta.
  - split; [reflexivity | intros k Hk; lia].
  - rewrite seq_S, fold_left_app. cbn [fold_left].
    destruct (test (a + n)) eqn:E.
    + split.
      * intros Hnone. rewrite Hnone in E by lia. discriminate.
      * intros k Hk Ht Hlast. destruct (Nat.eq_dec k (a + n)) as [-> | Hne]; trivial.
        rewrite Hlast in E by lia. discriminate.
    + split.
      * intros Hnone. apply IH0. intros k Hk. apply Hnone. lia.
      * intros k Hk Ht Hlast.
        assert (k <> a + n) by (intros ->; congruence).
        apply IH1; trivial; [lia|]. intros k' Hk'. apply Hlast. lia.
Qed.

Lemma fold_left_ext_in {A B : Type} (f g : A -> B -> A) (l : list B) (a : A) :
  (forall acc x, In x l -> f acc x = g acc x) -> fold_left f l a = fold_left g l a.
Proof.
  revert a. induction l as [|x l IH]; intros a H; trivial.
  cbn [fold_left]. rewrite H by now left. apply IH. intros acc y Hy. apply H. now right.
Qed.

(** The value the inner loop writes at [j]. *)
Lemma promoInner_eq (tokens : list jsstring) (promo : jsstring) (j : nat) :
  promoInner tokens promo j =
  if mapHasOpt promoWords (nth_error tokens j)
  then str "=" ++ mapGetStr promoWords (orEmpty (nth_error tokens j))
  else promo.
Proof.
  unfold promoInner. rewrite at_nat. now destruct (nth_error tokens j).
Qed.

Lemma promoWindow (tokens : list jsstring) (i j : nat) :
  i < length tokens ->
  (i <= j < i + (Nat.min (i + 4) (length tokens) - i)
   <-> i <= j < i + 4 /\ j < length tokens).
Proof. lia. Qed.

Lemma mapHasOpt_length (tokens : list jsstring) (j : nat) :
  mapHasOpt promoWords (nth_error tokens j) = true -> j < length tokens.
Proof.
  intros H. apply nth_error_Some. destruct (nth_error tokens j); [discriminate | discriminate H].
Qed.

Lemma isPromoteWord_length (tokens : list jsstring) (i : nat) :
  isPromoteWord (nth_error tokens i) = true -> i < length tokens.
Proof.
  intros H. apply nth_error_Some. destruct (nth_error tokens i); [discriminate | discriminate H].
Qed.

(** One turn of the outer loop: it writes when a promote word stands at [i]
    and a promotion word follows within its window, and then what it writes
    does not depend on the value before. *)
Lemma promoInner_fold (tokens : list jsstring) (l : list nat) (promo : jsstring) :
  fold_left (promoInner tokens) l promo =
  fold_left (fun acc k =>
               if (fun j => mapHasOpt promoWords (nth_error tokens j)) k
               then (fun j => str "=" ++ mapGetStr promoWords (orEmpty (nth_error tokens j))) k
               else acc) l promo.
Proof. apply fold_left_ext_in. intros acc x _. apply promoInner_eq. Qed.

Lemma promoOuter_eq (tokens : list jsstring) (promo : jsstring) (i : nat) :
  promoOuter tokens promo i =
  if isPromoteWord (nth_error tokens i)
     && existsb (fun j => mapHasOpt promoWords (nth_error tokens j))
          (seq i (Nat.min (i + 4) (length tokens) - i))
  then promoOuter tokens [] i
  else promo.
Proof.
  unfold promoOuter. rewrite at_nat.
  destruct (isPromoteWord (nth_error tokens i)) eqn:Ep; cbn [andb]; trivial.
  set (n := Nat.min (i + 4) (length tokens) - i).
  rewrite !promoInner_fold.
  set (test := fun j => mapHasOpt promoWords (nth_error tokens j)).
  set (val := fun j => str "=" ++ mapGetStr promoWords (orEmpty (nth_error tokens j))).
  destruct (existsb test (seq i n)) eqn:E.
  - apply existsb_exists in E. destruct E as [j [Hj Hhas]]. apply in_seq in Hj.
    assert (Hlast : exists k, i <= k < i + n /\ test k = true
              /\ forall k', k < k' < i + n -> test k' = false).
    { clear Ep. revert j Hj Hhas. induction n as [|n IH]; intros j Hj Hhas; [lia|].
      destruct (test (i + n)) eqn:En.
      - exists (i + n). repeat split; trivial; try lia.
      - assert (Hjn : j <> i + n) by (intros ->; congruence).
        destruct (IH j ltac:(lia) Hhas) as [k [Hk [Hkh Hkl]]].
        exists k. repeat split; trivial; try lia.
        intros k' Hk'. destruct (Nat.eq_dec k' (i + n)) as [-> | Hne]; trivial.
        apply Hkl. lia. }
    destruct Hlast as [k [Hk [Hkh Hkl]]].
    etransitivity; [exact (proj2 (lastMatch_fold test val i n promo) k Hk Hkh Hkl)|].
    symmetry. exact (proj2 (lastMatch_fold test val i n []) k Hk Hkh Hkl).
  - apply (lastMatch_fold test val i n promo).
    intros k Hk. destruct (test k) eqn:Ek; trivial.
    assert (Hex : existsb test (seq i n) = true)
      by (apply existsb_exists; exists k; split; [apply in_seq; lia | trivial]).
    congruence.
Qed.

Lemma promoOuter_test (tokens : list jsstring) (i : nat) :
  isPromoteWord (nth_error tokens i)
  && existsb (fun j => mapHasOpt promoWords (nth_error tokens j))
       (seq i (Nat.min (i + 4) (length tokens) - i)) = true
  <-> exists j, promoAt tokens i j.
Proof.
  rewrite andb_true_iff, existsb_exists. unfold promoAt. split.
  - intros [Hp [j [Hj Hh]]]. apply in_seq in Hj. exists j. repeat split; trivial; lia.
  - intros [j [Hp [Hj Hh]]]. split; trivial. exists j. split; trivial.
    apply in_seq. pose proof (mapHasOpt_length _ _ Hh). lia.
Qed.

Lemma promoOuter_last (tokens : list jsstring) (i j : nat) :
  promoAt tokens i j ->
  (forall j', promoAt tokens i j' -> j' <= j) ->
  promoOuter tokens [] i = str "=" ++ mapGetStr promoWords (orEmpty (nth_error tokens j)).
Proof.
  intros [Hp [Hj Hh]] Hlast. unfold promoOuter. rewrite at_nat, Hp, promoInner_fold.
  pose proof (mapHasOpt_length _ _ Hh) as Hlen.
  set (test := fun j => mapHasOpt promoWords (nth_error tokens j)).
  set (val := fun j => str "=" ++ mapGetStr promoWords (orEmpty (nth_error tokens j))).
  apply (proj2 (lastMatch_fold test val i _ []) j); trivial; [lia|].
  intros k Hk. destruct (test k) eqn:Ek; trivial.
  assert (k <= j) by (apply Hlast; repeat split; trivial; lia). lia.
Qed.

Lemma promoOuter_fold (tokens : list jsstring) (l : list nat) (promo : jsstring) :
  fold_left (promoOuter tokens) l promo =
  fold_left (fun acc k =>
               if (fun i => isPromoteWord (nth_error tokens i)
                            && existsb (fun j => mapHasOpt promoWords (nth_error tokens j))
                                 (seq i (Nat.min (i + 4) (length tokens) - i))) k
               then promoOuter tokens [] k
               else acc) l promo.
Proof. apply fold_left_ext_in. intros acc x _. apply promoOuter_eq. Qed.

(** X2: the promotion scan gives the empty string unless a promotion word
    stands at most three tokens after a promote word (or on it); then it
    gives "=" and the letter of the last such word of the last such promote
    word: later matches overwrite earlier ones. *)
Theorem X2_promoScan_last (tokens : list jsstring) :
  ((forall i j, ~ promoAt tokens i j) -> promoScan tokens = []) /\
  (forall i j, promoAt tokens i j ->
     (forall i' j', promoAt tokens i' j' -> i' < i \/ (i' = i /\ j' <= j)) ->
     promoScan tokens = str "=" ++ mapGetStr promoWords (orEmpty (nth_error tokens j))).
Proof.
  unfold promoScan. rewrite promoOuter_fold.
  set (test := fun i => isPromoteWord (nth_error tokens i)
                        && existsb (fun j => mapHasOpt promoWords (nth_error tokens j))
                             (seq i (Nat.min (i + 4) (length tokens) - i))).
  destruct (lastMatch_fold test (promoOuter tokens []) 0 (length tokens) []) as [L0 L1].
  split.
  - intros Hnone. apply L0. intros i _.
    destruct (test i) eqn:E; trivial.
    apply promoOuter_test in E. destruct E as [j Hj]. now destruct (Hnone i j).
  - intros i j Hij Hlast. etransitivity; [apply (L1 i)|].
    4: { apply promoOuter_last; trivial. intros j' Hj'.
         destruct (Hlast i j' Hj') as [H | [_ H]]; lia. }
    + destruct Hij as [Hp _]. apply isPromoteWord_length in Hp. lia.
    + apply promoOuter_test. now exists j.
    + intros i' Hi'. destruct (test i') eqn:E; trivial.
      apply promoOuter_test in E. destruct E as [j' Hj'].
      destruct (Hlast i' j' Hj') as [H | [H _]]; lia.
Qed.

Lemma X2_promoScan_last_witness :
  promoScan [str "e"; str "8"; str "promote"; str "to"; str "rook"; str "queen"]
  = str "=Q".
Proof.
  apply (proj2 (X2_promoScan_last
                  [str "e"; str "8"; str "promote"; str "to"; str "rook"; str "queen"])
           2 5).
  - repeat split; lia.
  - intros i' j' [Hp [Hj Hh]].
    assert (i' = 2).
    { do 6 (destruct i' as [|i']; [try discriminate Hp; try reflexivity|]).
      destruct i'; discriminate Hp. }
    subst i'. right. split; trivial. lia.
Defined.

(** ** The pawn capture *)

Lemma withSuffix_suffixOf (tokens : list jsstring) (san : jsstring) :
  withSuffix tokens san = san ++ suffixOf tokens.
Proof.
  unfold withSuffix, suffixOf. destruct (hasMateOf tokens); trivial.
  destruct (hasCheckOf tokens); trivial. now rewrite app_nil_r.
Qed.

Lemma at_nat_plus (tokens : list jsstring) (k m : nat) :
  at_ tokens (Z.of_nat k + Z.of_nat m) = nth_error tokens (k + m).
Proof. now rewrite <- Nat2Z.inj_add, at_nat. Qed.

Lemma findIndex_nat (p : jsstring -> bool) (tokens : list jsstring) (k : nat) (w : jsstring) :
  nth_error tokens k = Some w -> p w = true ->
  (forall j w', j < k -> nth_error tokens j = Some w' -> p w' = false) ->
  findIndex p tokens = Z.of_nat k.
Proof.
  intros Hk Hp Hfirst. apply findIndex_first with (w := w); trivial.
  - now rewrite at_nat.
  - intros j w' Hj Hat. pose proof (at_Some _ _ _ Hat) as Hr.
    rewrite <- (Z2Nat.id j) in Hat by lia. rewrite at_nat in Hat.
    apply (Hfirst (Z.to_nat j)); trivial. lia.
Qed.

(** X3: when the first token is a file that no rank follows, the pawn
    capture shape looks at the two tokens after the FIRST capture word only:
    if they are a file and a rank the result is the first token, "x", that
    square, the promotion suffix of the scan and the check or mate suffix;
    if they are not, the shape does not match, whatever follows a later
    capture word. *)
Theorem X3_pawn_capture (cleaned : jsstring) (tokens : list jsstring)
    (k : nat) (w : jsstring) :
  isFile (nth_error tokens 0) = true ->
  pawnPushShape tokens = false ->
  nth_error tokens k = Some w -> isCaptureWord w = true ->
  (forall j w', j < k -> nth_error tokens j = Some w' -> isCaptureWord w' = false) ->
  (isFile (nth_error tokens (k + 1)) = true -> isRank (nth_error tokens (k + 2)) = true ->
   interpret cleaned tokens =
   orEmpty (nth_error tokens 0) ++ str "x"
   ++ orEmpty (nth_error tokens (k + 1)) ++ orEmpty (nth_error tokens (k + 2))
   ++ promoScan tokens ++ suffixOf tokens) /\
  (isFile (nth_error tokens (k + 1)) && isRank (nth_error tokens (k + 2)) = false ->
   pawnCaptureShape tokens = false).
Proof.
  intros H0 Hpush Hk Hw Hfirst.
  pose proof (findIndex_nat isCaptureWord tokens k w Hk Hw Hfirst) as Hidx.
  assert (E1 : at_ tokens (Z.of_nat k + 1) = nth_error tokens (k + 1))
    by apply (at_nat_plus tokens k 1).
  assert (E2 : at_ tokens (Z.of_nat k + 2) = nth_error tokens (k + 2))
    by apply (at_nat_plus tokens k 2).
  assert (E0 : at_ tokens 0 = nth_error tokens 0) by apply (at_nat tokens 0).
  split.
  - intros Hf Hr.
    assert (Hlen : (4 <=? length tokens) = true).
    { apply Nat.leb_le.
      assert (k + 2 < length tokens)
        by (apply nth_error_Some; destruct (nth_error tokens (k + 2)); [discriminate | discriminate Hr]).
      destruct k as [|k]; [|lia]. rewrite Hk in H0.
      apply isFile_inv in H0. destruct H0 as [c [Ec Hc]]. injection Ec as ->.
      exfalso. revert Hw. clear -Hc. simpl in Hc.
      repeat (destruct Hc as [<- | Hc]; [discriminate|]). destruct Hc. }
    assert (Esq : toSquare (nth_error tokens (k + 1)) (nth_error tokens (k + 2))
                  = orEmpty (nth_error tokens (k + 1)) ++ orEmpty (nth_error tokens (k + 2)))
      by (unfold toSquare; now rewrite Hf, Hr).
    assert (Hshape : pawnCaptureShape tokens = true).
    { unfold pawnCaptureShape. rewrite Hidx, E0, E1, E2, Hlen, H0, Hf, Hr, Esq.
      destruct (Z.eqb_spec (Z.of_nat k) (-1)); [lia|].
      rewrite (dest_nonempty _ _ Hf Hr). reflexivity. }
    unfold interpret. rewrite Hpush, Hshape, Hidx, E0, E1, E2, Esq, withSuffix_suffixOf.
    now rewrite <- !app_assoc.
  - intros Hno. unfold pawnCaptureShape. rewrite Hidx, E1, E2.
    apply andb_false_iff in Hno. destruct Hno as [-> | ->];
      now rewrite ?andb_false_r.
Qed.

Lemma X3_pawn_capture_witness :
  sanFromSpeech (str "d captures e five mate") = str "dxe5#" /\
  pawnCaptureShape (tokensOf (cleanedOf (str "d takes takes e five"))) = false.
Proof.
  split.
  - change (interpret (str "d captures e five mate")
              [str "d"; str "captures"; str "e"; str "5"; str "mate"] = str "dxe5#").
    rewrite (proj1 (X3_pawn_capture (str "d captures e five mate")
                      [str "d"; str "captures"; str "e"; str "5"; str "mate"]
                      1 (str "captures") eq_refl eq_refl eq_refl eq_refl
                      ltac:(intros [|j] w' Hj E; [now injection E as <- | lia]))
               eq_refl eq_refl).
    reflexivity.
  - change (tokensOf (cleanedOf (str "d takes takes e five")))
      with [str "d"; str "takes"; str "takes"; str "e"; str "5"].
    apply (proj2 (X3_pawn_capture [] [str "d"; str "takes"; str "takes"; str "e"; str "5"]
                    1 (str "takes") eq_refl eq_refl eq_refl eq_refl
                    ltac:(intros [|j] w' Hj E; [now injection E as <- | lia]))).
    reflexivity.
Defined.

(** ** The fallback *)

Lemma filter_collapseFrom (p : ascii -> bool) (b : bool) (s : jsstring) :
  (forall c, isSpace c = true -> p c = false) ->
  filter p (collapseFrom b s) = filter p s.
Proof.
  intros Hp. revert b. induction s as [|c s IH]; intros b; [reflexivity|].
  cbn [collapseFrom]. destruct (isSpace c) eqn:Ec.
  - cbn [filter]. rewrite (Hp c Ec).
    destruct b; cbn [filter]; rewrite ?(Hp space eq_refl); apply IH.
  - cbn [filter]. rewrite IH. reflexivity.
Qed.

Lemma filter_trimStart (p : ascii -> bool) (s : jsstring) :
  (forall c, isSpace c = true -> p c = false) ->
  filter p (trimStart s) = filter p s.
Proof.
  intros Hp. induction s as [|c s IH]; [reflexivity|].
  cbn [trimStart]. destruct (isSpace c) eqn:Ec; trivial.
  cbn [filter]. now rewrite (Hp c Ec).
Qed.

Lemma filter_rev' {A : Type} (p : A -> bool) (l : list A) :
  filter p (rev l) = rev (filter p l).
Proof.
  induction l as [|x l IH]; [reflexivity|].
  cbn [rev filter]. rewrite filter_app, IH. cbn [filter].
  destruct (p x); cbn [rev]; now rewrite ?app_nil_r.
Qed.

Lemma filter_trim (p : ascii -> bool) (s : jsstring) :
  (forall c, isSpace c = true -> p c = false) ->
  filter p (trim s) = filter p s.
Proof.
  intros Hp. unfold trim, trimEnd.
  rewrite filter_rev', (filter_trimStart p _ Hp), filter_rev', rev_involutive.
  now apply filter_trimStart.
Qed.

Lemma lowerChar_residue (c : ascii) :
  isFallbackChar (lowerChar c) && negb (isSpace (lowerChar c))
  && (if ascii_dec (lowerChar c) hyphen then false else true)
  = isResidueChar (lowerChar c).
Proof. destruct c as [[] [] [] [] [] [] [] []]; reflexivity. Qed.

Lemma fallbackOf_cleanedOf (raw : jsstring) :
  fallbackOf (cleanedOf raw) = filter isResidueChar (toLowerCase raw).
Proof.
  unfold fallbackOf, removeSpaces, cleanedOf, collapseSpaces.
  set (p := fun c => isFallbackChar c && negb (isSpace c)).
  assert (Hp : forall c, isSpace c = true -> p c = false)
    by (intros c Hc; unfold p; rewrite Hc; apply andb_false_r).
  assert (Hpp : forall l, filter isFallbackChar (filter (fun c => negb (isSpace c)) l)
                          = filter p l).
  { induction l as [|c l IH]; [reflexivity|]. unfold p in *. cbn [filter].
    destruct (isSpace c); cbn [negb filter]; rewrite ?andb_false_r, ?andb_true_r, IH;
      reflexivity. }
  rewrite Hpp, (filter_trim p _ Hp), (filter_collapseFrom p _ _ Hp).
  unfold replaceHyphens, toLowerCase. induction raw as [|c raw IH]; [reflexivity|].
  cbn [map filter]. cbv beta. rewrite IH, <- (lowerChar_residue c).
  destruct (ascii_dec (lowerChar c) hyphen) as [E | E].
  - rewrite (Hp space eq_refl). now rewrite andb_false_r.
  - unfold p. now rewrite andb_true_r.
Qed.

(** X4: when no castling phrase, no pawn shape and no piece word is found,
    the result is the transcript in lowercase with everything but the
    characters a-z, 0-9, "+", "#" and "=" removed: uppercase letters, white
    space and hyphens never come out of the fallback, so that a piece
    letter said or spelled as in Nf3 comes out in lowercase. *)
Theorem X4_fallback_residue (raw : jsstring) :
  let tokens := tokensOf (cleanedOf raw) in
  castling (cleanedOf raw) = None ->
  pawnPushShape tokens = false ->
  pawnCaptureShape tokens = false ->
  findIndex (mapHas pieceWords) tokens = (-1)%Z ->
  sanFromSpeech raw = filter isResidueChar (toLowerCase raw).
Proof.
  intros tokens Hc Hpush Hcap Hpiece. unfold sanFromSpeech.
  destruct raw as [|c raw]; [reflexivity|]. cbn [isEmpty]. rewrite Hc.
  fold tokens. unfold interpret. rewrite Hpush, Hcap, Hpiece. cbn [Z.eqb negb].
  apply fallbackOf_cleanedOf.
Qed.

Lemma X4_fallback_residue_witness :
  sanFromSpeech (str "N-f3 +!") = str "nf3+".
Proof.
  rewrite (X4_fallback_residue (str "N-f3 +!")) by (vm_compute; reflexivity).
  vm_compute. reflexivity.
Defined.

(** ** Tokens and cleaning *)

(** X5: every token the normalizer gives is non-empty, made of the
    characters a-z and 0-9 only, and is not one of the number words one to
    eight: these always reach the interpreter as digits. *)
Theorem X5_tokens_normal (raw : jsstring) (t : jsstring) :
  In t (normalize raw) ->
  t <> [] /\ (forall c, In c t -> isLowerAlnum c = true)
  /\ mapGet numberWords t = None.
Proof.
  intros Hin.
  pose proof (proj1 (Forall_forall _ _) (normalize_normal raw) t Hin) as [Hne [Hall Hnum]].
  repeat split; trivial.
  - intros c Hc. now apply (forallb_In _ _ _ Hall).
  - unfold mapHas in Hnum. now destruct (mapGet numberWords t).
Qed.

Lemma X5_tokens_normal_witness :
  mapGet numberWords (str "1") = None.
Proof.
  apply (X5_tokens_normal (str "  One, x-RAY!  ") (str "1")).
  vm_compute. tauto.
Defined.

Lemma lowerChar_facts (c : ascii) :
  lowerChar (lowerChar c) = lowerChar c /\ isSpace (lowerChar c) = isSpace c.
Proof. destruct c as [[] [] [] [] [] [] [] []]; split; reflexivity. Qed.

Lemma collapseFrom_length (b : bool) (s : jsstring) :
  length (collapseFrom b s) <= length s.
Proof.
  revert b. induction s as [|c s IH]; intros b; [reflexivity|].
  pose proof (IH true). pose proof (IH false).
  cbn [collapseFrom]. destruct (isSpace c); [destruct b|]; cbn [length]; lia.
Qed.

Lemma collapseFrom_idem (b : bool) (s : jsstring) :
  collapseFrom b (collapseFrom b s) = collapseFrom b s.
Proof.
  revert b. induction s as [|c s IH]; intros b; [reflexivity|].
  cbn [collapseFrom]. destruct (isSpace c) eqn:Ec.
  - destruct b; [apply IH|]. cbn [collapseFrom].
    change (isSpace space) with true. cbv iota. now rewrite IH.
  - cbn [collapseFrom]. rewrite Ec. now rewrite IH.
Qed.

(** A collapsed string stays collapsed when its end is cut off. *)
Lemma collapseFrom_prefix (b : bool) (p q : jsstring) :
  collapseFrom b (p ++ q) = p ++ q -> collapseFrom b p = p.
Proof.
  revert b. induction p as [|c p IH]; intros b H; [reflexivity|].
  cbn [app collapseFrom] in *. destruct (isSpace c) eqn:Ec.
  - destruct b.
    + exfalso. pose proof (collapseFrom_length true (p ++ q)) as Hl.
      rewrite H in Hl. cbn [length] in Hl. lia.
    + injection H as <- H. f_equal. now apply IH.
  - injection H as H. f_equal. now apply IH.
Qed.

Lemma trimStart_split (s : jsstring) :
  exists q, s = q ++ trimStart s /\ forallb isSpace q = true.
Proof.
  induction s as [|c s [q [E Hq]]]; [now exists []|].
  cbn [trimStart]. destruct (isSpace c) eqn:Ec.
  - exists (c :: q). cbn [app forallb]. rewrite Ec, Hq. split; [now f_equal | reflexivity].
  - now exists [].
Qed.

Lemma trimStart_head (s : jsstring) (c : ascii) (r : jsstring) :
  trimStart s = c :: r -> isSpace c = false.
Proof.
  induction s as [|d s IH]; [discriminate|].
  cbn [trimStart]. destruct (isSpace d) eqn:Ed; trivial.
  intros E. injection E as <- _. exact Ed.
Qed.

Lemma trimEnd_split (s : jsstring) :
  exists q, s = trimEnd s ++ q /\ forallb isSpace q = true.
Proof.
  unfold trimEnd. destruct (trimStart_split (rev s)) as [q [E Hq]].
  exists (rev q). split.
  - rewrite <- (rev_involutive s) at 1. rewrite E at 1. now rewrite rev_app_distr.
  - apply forallb_forall. intros c Hc. apply in_rev in Hc.
    now apply (forallb_In _ _ _ Hq).
Qed.

Lemma trimEnd_last (s r : jsstring) (c : ascii) :
  trimEnd s = r ++ [c] -> isSpace c = false.
Proof.
  unfold trimEnd. intros E.
  assert (E' : trimStart (rev s) = c :: rev r).
  { rewrite <- (rev_involutive (trimStart (rev s))), E, rev_app_distr. reflexivity. }
  now apply trimStart_head in E'.
Qed.

(** A collapsed string stays collapsed when its leading white space is cut
    off. *)
Lemma collapse_trimStart (s : jsstring) :
  collapseFrom false s = s -> collapseFrom false (trimStart s) = trimStart s.
Proof.
  intros H. destruct s as [|c s]; [reflexivity|].
  cbn [trimStart]. cbn [collapseFrom] in H. destruct (isSpace c) eqn:Ec.
  - injection H as _ H. destruct s as [|d s]; [reflexivity|].
    cbn [trimStart]. cbn [collapseFrom] in H. destruct (isSpace d) eqn:Ed.
    + exfalso. pose proof (collapseFrom_length true s) as Hl.
      rewrite H in Hl. cbn [length] in Hl. lia.
    + cbn [collapseFrom]. now rewrite Ed.
  - cbn [collapseFrom]. now rewrite Ec.
Qed.

Lemma In_collapseFrom (b : bool) (s : jsstring) (c : ascii) :
  In c (collapseFrom b s) -> In c s \/ c = space.
Proof.
  revert b. induction s as [|d s IH]; intros b; [intros []|].
  cbn [collapseFrom]. destruct (isSpace d); [destruct b|].
  - intros H. destruct (IH _ H); [left; now right | now right].
  - intros [<- | H]; [now right|]. destruct (IH _ H); [left; now right | now right].
  - intros [<- | H]; [left; now left|]. destruct (IH _ H); [left; now right | now right].
Qed.

Lemma In_trim (s : jsstring) (c : ascii) : In c (trim s) -> In c s.
Proof.
  unfold trim. intros H.
  destruct (trimEnd_split (trimStart s)) as [q [E _]].
  destruct (trimStart_split s) as [q' [E' _]].
  rewrite E', E. apply in_or_app. right. apply in_or_app. now left.
Qed.

Lemma cleanedOf_idem (raw : jsstring) : cleanedOf (cleanedOf raw) = cleanedOf raw.
Proof.
  set (y := replaceHyphens (toLowerCase raw)).
  set (z := collapseSpaces y).
  assert (Ev : cleanedOf raw = trim z) by reflexivity.
  assert (Hy : forall c, In c y -> lowerChar c = c /\ c <> hyphen).
  { intros c Hc. unfold y, replaceHyphens, toLowerCase in Hc.
    apply in_map_iff in Hc. destruct Hc as [d [<- Hd]].
    apply in_map_iff in Hd. destruct Hd as [e [<- _]].
    destruct (ascii_dec (lowerChar e) hyphen); [split; [reflexivity | discriminate]|].
    split; [apply lowerChar_facts | trivial]. }
  assert (Hv : forall c, In c (trim z) -> lowerChar c = c /\ c <> hyphen).
  { intros c Hc. apply In_trim in Hc. apply In_collapseFrom in Hc.
    destruct Hc as [Hc | ->]; [now apply Hy | split; [reflexivity | discriminate]]. }
  rewrite Ev. unfold cleanedOf.
  assert (E1 : toLowerCase (trim z) = trim z)
    by (apply map_fixed; intros c Hc; now apply Hv).
  assert (E2 : replaceHyphens (trim z) = trim z).
  { apply map_fixed. intros c Hc. destruct (ascii_dec c hyphen) as [E | _]; trivial.
    now destruct (proj2 (Hv c Hc)). }
  rewrite E1, E2.
  assert (Hz : collapseFrom false z = z) by apply collapseFrom_idem.
  assert (E3 : collapseSpaces (trim z) = trim z).
  { unfold collapseSpaces, trim.
    destruct (trimEnd_split (trimStart z)) as [q [E _]].
    apply collapseFrom_prefix with (q := q). rewrite <- E.
    now apply collapse_trimStart. }
  rewrite E3. apply trim_fixed.
  - intros c r E. unfold trim in E.
    destruct (trimEnd_split (trimStart z)) as [q [E' _]]. rewrite E in E'.
    now apply trimStart_head in E'.
  - intros r c E. unfold trim in E. now apply trimEnd_last in E.
Qed.

(** X6: cleaning a transcript is idempotent, and the interpreter gives the
    same result on a transcript and on its cleaned form: letter case,
    hyphens against spaces, and the amount and kind of white space never
    change the result. *)
Theorem X6_cleaning_invariance (raw : jsstring) :
  cleanedOf (cleanedOf raw) = cleanedOf raw /\
  sanFromSpeech (cleanedOf raw) = sanFromSpeech raw /\
  (forall raw', cleanedOf raw' = cleanedOf raw -> sanFromSpeech raw' = sanFromSpeech raw).
Proof.
  assert (H : forall r, sanFromSpeech r =
                        match castling (cleanedOf r) with
                        | Some san => san
                        | None => interpret (cleanedOf r) (tokensOf (cleanedOf r))
                        end).
  { intros r. unfold sanFromSpeech. destruct r; reflexivity. }
  split; [apply cleanedOf_idem|]. split.
  - rewrite (H (cleanedOf raw)), (H raw), cleanedOf_idem. reflexivity.
  - intros raw' E. now rewrite (H raw'), (H raw), E.
Qed.

Lemma X6_cleaning_invariance_witness :
  sanFromSpeech (str "  KNIGHT   f-Three ") = sanFromSpeech (str "knight f three").
Proof.
  apply (proj2 (proj2 (X6_cleaning_invariance (str "knight f three")))).
  vm_compute. reflexivity.
Defined.

(** ** The engine reply *)

(** X7: [uciToMove] gives no move exactly on the empty string and on the
    sentinel (none); on a string made of a two-character origin, a
    two-character target and possibly more, it gives back that origin and
    that target, with the fifth character as promotion when there is one.
    What comes after the fifth character is dropped. *)
Theorem X7_uciToMove_roundtrip :
  (forall uci, uciToMove uci = None <-> uci = [] \/ uci = str "(none)") /\
  (forall f t rest,
     length f = 2 -> length t = 2 -> f ++ t ++ rest <> str "(none)" ->
     uciToMove (f ++ t ++ rest) =
     Some {| from := f; to := t;
             promotion := match rest with [] => None | c :: _ => Some [c] end |}).
Proof.
  split.
  - intros uci. unfold uciToMove.
    destruct (isEmpty uci || jsstring_eqb uci (str "(none)")) eqn:E.
    + split; trivial. intros _. apply orb_true_iff in E.
      destruct E as [E | E]; [left; now destruct uci | right; now apply jsstring_eqb_true].
    + split; [discriminate|]. apply orb_false_iff in E. destruct E as [E1 E2].
      intros [-> | ->]; [discriminate E1 | now rewrite jsstring_eqb_refl in E2].
  - intros f t rest Hf Ht Hne. unfold uciToMove.
    destruct f as [|f1 [|f2 [|]]]; try discriminate Hf.
    destruct t as [|t1 [|t2 [|]]]; try discriminate Ht.
    cbn [app isEmpty orb].
    destruct (jsstring_eqb _ _) eqn:E; [apply jsstring_eqb_true in E; contradiction|].
    unfold slice. cbn [skipn firstn Nat.sub length Nat.leb nth_error].
    destruct rest as [|c rest]; reflexivity.
Qed.

Lemma X7_uciToMove_roundtrip_witness :
  uciToMove (str "e7e8q") =
  Some {| from := str "e7"; to := str "e8"; promotion := Some (str "q") |}.
Proof.
  apply (proj2 X7_uciToMove_roundtrip (str "e7") (str "e8") (str "q"));
    [reflexivity | reflexivity | discriminate].
Defined.

(** ** The dialogue: the busy flag *)

Arguments stopListening : simpl never.
Arguments startListeningForMove : simpl never.
Arguments startListeningForConfirm : simpl never.

Section DialogueExtras.

Context {collaborators : Collaborators}.

Lemma requests_app (l l' : list Effect) : requests (l ++ l') = requests l ++ requests l'.
Proof. apply filter_app. Qed.

Lemma requests_emit (e : Effect) (s : State) :
  isRequest e = false -> requests (effects (emit e s)) = requests (effects s).
Proof.
  intros He. cbn [effects emit]. rewrite requests_app. cbn [requests filter].
  rewrite He. apply app_nil_r.
Qed.




Lemma stopListening_busy (s : State) : busy (stopListening s) = busy s.
Proof. unfold stopListening. now destruct (recogRef s). Qed.

Lemma stopListening_live (s : State) : live s = false -> live (stopListening s) = false.
Proof. unfold stopListening. now destruct (recogRef s). Qed.

Lemma startListeningForMove_busy (r : Render) (s : State) :
  busy (startListeningForMove r s) = busy s.
Proof.
  unfold startListeningForMove, startListeningInternal.
  destruct (r_busy r); trivial. destruct SpeechRecognition; trivial.
  cbn. now rewrite stopListening_busy.
Qed.

Lemma startListeningForConfirm_busy (r : Render) (s : State) :
  busy (startListeningForConfirm r s) = busy s.
Proof.
  unfold startListeningForConfirm, startListeningInternal.
  destruct (r_busy r); trivial. destruct SpeechRecognition; trivial.
  cbn. now rewrite stopListening_busy.
Qed.

Lemma step_busyIdle (s : State) (ev : Event) :
  inTime s ev = true -> busyIdle s -> busyIdle (step s ev).
Proof.
  unfold busyIdle. intros Ht Hs.
  assert (Hkeep : busy s = true -> live s = false) by exact Hs.
  destruct ev; cbn [step]; cbn [inTime] in Ht; try discriminate Ht.
  - destruct (busy s) eqn:Eb; [solve [auto | intros; congruence]|]. unfold newGame.
    rewrite startListeningForMove_busy. cbn. discriminate.
  - destruct (busy s) eqn:Eb; cbn [orb]; [solve [auto | intros; congruence]|].
    destruct (listening s); [congruence|]. rewrite startListeningForMove_busy. congruence.
  - destruct (listening s); [|solve [auto | intros; congruence]]. rewrite stopListening_busy.
    intros Hb. apply stopListening_live. auto.
  - destruct (recogRef s); [|solve [auto | intros; congruence]]. cbn. intros Hb.
    specialize (Hkeep Hb). congruence.
  - destruct (recogRef s) as [cb|] eqn:Ecb; [|solve [auto | intros; congruence]].
    assert (Eb : busy s = false)
      by (destruct (busy s); [specialize (Hkeep eq_refl); congruence | trivial]).
    destruct cb as [r | r]; cbn [onresult].
    + unfold moveResult. destruct (isEmpty _);
        rewrite ?startListeningForMove_busy, ?startListeningForConfirm_busy; cbn; congruence.
    + unfold confirmResult. destruct (interpretConfirmCommand _).
      * unfold applyPlayerSan. destruct (r_busy r).
        { rewrite stopListening_busy. cbn. congruence. }
        cbn [chessRef emit]. destruct (moveSan _ _) as [[msan chess]|].
        { destruct (isCheckmate chess); [cbn; rewrite stopListening_busy; cbn; congruence|].
          destruct (isDraw chess); [cbn; rewrite stopListening_busy; cbn; congruence|].
          intros _. unfold requestEngineMove, postMessage.
          destruct SpeechRecognition; cbn; apply stopListening_live; reflexivity. }
        rewrite startListeningForMove_busy. cbn. rewrite stopListening_busy. cbn. congruence.
      * rewrite startListeningForMove_busy. cbn. rewrite stopListening_busy. cbn. congruence.
      * rewrite startListeningForConfirm_busy. cbn. congruence.
      * destruct (negb _); rewrite startListeningForConfirm_busy; cbn; congruence.
  - destruct (recogRef s); [|solve [auto | intros; congruence]]. intros _. reflexivity.
  - solve [auto | intros; congruence].
  - destruct SpeechRecognition; [|solve [auto | intros; congruence]]. unfold onmessage.
    destruct (isEmpty line); [solve [auto | intros; congruence]|].
    destruct (includes line (str "uciok")); [solve [auto | intros; congruence]|].
    destruct (startsWith line (str "bestmove")); [|solve [auto | intros; congruence]].
    destruct (uciToMove _) as [moveObj|].
    + destruct (moveObject (chessRef s) moveObj) as [[msan chess]|];
        (destruct (isCheckmate _); [|destruct (isDraw _)]);
        rewrite ?startListeningForMove_busy; cbn; discriminate.
    + rewrite startListeningForMove_busy. cbn. discriminate.
Qed.

Lemma run_busyIdle (events : list Event) (s : State) :
  allInTime events s -> busyIdle s -> busyIdle (run events s).
Proof.
  revert s. induction events as [|ev events IH]; intros s Ht Hs; trivial.
  destruct Ht as [Hev Ht]. apply IH; trivial. now apply step_busyIdle.
Qed.


End DialogueExtras.


(** ** The dialogue without speech recognition *)

Section Unsupported.

Context {collaborators : Collaborators}.

Hypothesis unsupported : SpeechRecognition = false.

Lemma startListeningForMove_unsupported (r : Render) (s : State) :
  inert s -> inert (startListeningForMove r s).
Proof.
  unfold startListeningForMove, startListeningInternal. rewrite unsupported.
  destruct (r_busy r); trivial.
Qed.

Lemma step_inert (s : State) (ev : Event) : inert s -> inert (step s ev).
Proof.
  intros Hi. pose proof Hi as [Hl [Hr [Ht [Hb [Hli [Hm He]]]]]].
  destruct ev; cbn [step]; rewrite ?Hl, ?Hr, ?Ht, ?Hb, ?Hli, ?unsupported; trivial.
  - apply startListeningForMove_unsupported. unfold newGame, stopListening. rewrite Hr.
    repeat split; trivial. cbn. apply Forall_app. split; trivial.
    repeat constructor. now exists (str "New game. Your move.").
  - now apply startListeningForMove_unsupported.
  - repeat split; trivial.
  - now destruct n.
  - now destruct n.
Qed.

Lemma run_inert (events : list Event) (s : State) : inert s -> inert (run events s).
Proof.
  revert s. induction events as [|ev events IH]; intros s Hs; trivial.
  apply IH. now apply step_inert.
Qed.

Lemma init_inert : inert init.
Proof.
  unfold inert, init. rewrite unsupported. cbn. repeat split; trivial.
Qed.

Lemma unsupported_start (s : State) :
  inert s ->
  status (step s ClickStart) = StListening /\ live (step s ClickStart) = false.
Proof.
  intros [Hl [Hr [_ [Hb [Hli _]]]]]. cbn [step]. rewrite Hb, Hli. cbn [orb].
  unfold startListeningForMove, startListeningInternal, renderOf.
  rewrite Hb, unsupported. cbn. auto.
Qed.

End Unsupported.

(** X9: in a browser without speech recognition the component stays inert
    whatever happens: no recognizer is made, nothing is sent to the engine or
    to the move application, no move is recorded, and the only effects are
    spoken texts.  Still, the Start button sets the status to Listening
    although nothing listens. *)
Theorem X9_unsupported_inert {collaborators : Collaborators} (events : list Event) :
  SpeechRecognition = false ->
  let s := run events init in
  live s = false /\ recogRef s = None /\ busy s = false /\ moves s = []
  /\ requests (effects s) = []
  /\ (forall e, In e (effects s) -> exists text, e = Spoken text)
  /\ status (step s ClickStart) = StListening /\ live (step s ClickStart) = false.
Proof.
  intros Hu s.
  pose proof (run_inert Hu events init (init_inert Hu)) as Hi.
  pose proof (unsupported_start Hu _ Hi) as [Hs1 Hs2].
  destruct Hi as [Hl [Hr [_ [Hb [Hli [Hm He]]]]]]. fold s in Hl, Hr, Hb, Hm, He.
  repeat split; trivial.
  - unfold requests. induction He as [|e l [text ->] _ IH]; trivial.
  - apply Forall_forall. exact He.
Qed.

Lemma X9_unsupported_inert_witness :
  let s := run (collaborators := deafCollaborators)
             [ClickNewGame; ClickStart; EngineMessage (str "bestmove e7e5")] init in
  live s = false /\ moves s = [].
Proof.
  cbv zeta.
  pose proof (X9_unsupported_inert (collaborators := deafCollaborators)
                [ClickNewGame; ClickStart; EngineMessage (str "bestmove e7e5")] eq_refl)
    as [H1 [_ [_ [H2 _]]]].
  exact (conj H1 H2).
Defined.

(** ** The dialogue: what a transcript does *)

Section Transitions.

Context {collaborators : Collaborators}.

(** A new session on a component that already has a recognizer. *)
Lemma startListeningInternal_restart (cb c0 : Callback) (s : State) :
  SpeechRecognition = true -> recogRef s = Some c0 ->
  startListeningInternal cb s =
  mkState (chessRef s) (Some cb) (retired s ++ [c0]) true (moves s) (status s) (busy s)
    false (mode s) (pendingSan s) (effects s ++ [Stopped; Started]).
Proof.
  intros Hsr Hc. unfold startListeningInternal, newRecognizer, stopListening.
  rewrite Hsr. destruct s. cbn in Hc. subst.
  cbv [negb emit set_live set_recogRef set_retired setListening chessRef recogRef retired
       live moves status busy listening mode pendingSan effects].
  now rewrite <- app_assoc.
Qed.

Lemma stopListening_stop (c0 : Callback) (s : State) :
  recogRef s = Some c0 ->
  stopListening s =
  mkState (chessRef s) (recogRef s) (retired s) false (moves s) (status s) (busy s) false
    (mode s) (pendingSan s) (effects s ++ [Stopped]).
Proof.
  intros Hc. unfold stopListening. destruct (recogRef s) eqn:E; [|discriminate Hc].
  cbv [emit set_live setListening chessRef recogRef retired live moves status busy
       listening mode pendingSan effects].
  destruct s. cbn in E. now rewrite E.
Qed.

(** What holds of the recognizer of [recogRef.current], after any events. *)
Lemma reachable_recognizer (events : list Event) (cb : Callback) :
  let s := run events init in
  recogRef s = Some cb ->
  SpeechRecognition = true /\ r_busy (renderOfCallback cb) = false.
Proof.
  intros s Hcb. destruct (run_sound events init init_sound) as [H1 [_ H3]].
  fold s in H1, H3. unfold recognizers in *. rewrite Hcb in *. split.
  - apply H1. now destruct (retired s).
  - apply Forall_app in H3. destruct H3 as [_ H3]. now inversion H3.
Qed.

(** X10: a transcript that a confirm recognizer in [recogRef.current]
    gives, while its session runs or after it was stopped, does this: one
    classified CANCEL clears the pending SAN, goes to mode MOVE and starts a
    move session; one classified REPEAT says the prompt again and listens
    again, and so does one that is neither a command nor a move; one that
    is no command but gives a SAN makes this SAN the pending one.  In the
    last three cases the mode stays as it is.  The SAN said in the REPEAT
    prompt is the one of the render of the callback. *)
Theorem X10_confirm_phase (events : list Event) (r : Render) (raw : jsstring) :
  let s := run events init in
  let s' := step s (RecogResult raw) in
  recogRef s = Some (onConfirm r) ->
  (interpretConfirmCommand raw = Cmd.CANCEL ->
   mode s' = Mode.MOVE /\ pendingSan s' = [] /\ live s' = true
   /\ recogRef s' = Some (onMove r)
   /\ effects s' = effects s ++ [Stopped; Spoken (str "Canceled. Say your move.");
                                 Stopped; Started]) /\
  (interpretConfirmCommand raw = Cmd.REPEAT ->
   mode s' = mode s /\ pendingSan s' = pendingSan s /\ live s' = true
   /\ recogRef s' = Some (onConfirm r)
   /\ effects s' = effects s
        ++ [Spoken (str "I heard " ++ r_pendingSan r ++ str ". Confirm or cancel.");
            Stopped; Started]) /\
  (interpretConfirmCommand raw = Cmd.UNKNOWN ->
   mode s' = mode s /\ live s' = true /\ recogRef s' = Some (onConfirm r)
   /\ (sanFromSpeech raw = [] ->
       pendingSan s' = pendingSan s
       /\ effects s' = effects s ++ [Spoken (str "Please say confirm or cancel.");
                                     Stopped; Started])
   /\ (sanFromSpeech raw <> [] ->
       pendingSan s' = sanFromSpeech raw
       /\ status s' = StConfirm (r_pendingSan r))).
Proof.
  intros s s' Hcb.
  destruct (reachable_recognizer events (onConfirm r) Hcb) as [Hsr Hb].
  cbn in Hb.
  assert (Es : s' = confirmResult r raw (set_live false s))
    by (unfold s'; cbn [step]; now rewrite Hcb).
  unfold confirmResult, startListeningForMove, startListeningForConfirm in Es.
  rewrite Hb in Es.
  split; [|split].
  - intros E. rewrite E in Es.
    rewrite (stopListening_stop (onConfirm r)) in Es by exact Hcb.
    rewrite (startListeningInternal_restart _ (onConfirm r)) in Es by (trivial; exact Hcb).
    rewrite Es. cbn. rewrite <- !app_assoc. auto.
  - intros E. rewrite E in Es.
    rewrite (startListeningInternal_restart _ (onConfirm r)) in Es by (trivial; exact Hcb).
    rewrite Es. cbn. rewrite <- !app_assoc. auto.
  - intros E. rewrite E in Es. destruct (isEmpty (sanFromSpeech raw)) eqn:Ee;
      cbn [negb] in Es;
      rewrite (startListeningInternal_restart _ (onConfirm r)) in Es by (trivial; exact Hcb);
      rewrite Es; cbn; refine (conj _ (conj _ (conj _ (conj _ _)))); trivial.
    + intros _. split; trivial. now rewrite <- !app_assoc.
    + intros Hne. apply isEmpty_false in Hne. congruence.
    + intros E0. rewrite E0 in Ee. discriminate Ee.
    + intros _. split; reflexivity.
Qed.

End Transitions.

Lemma X10_confirm_phase_witness :
  let s := run (collaborators := Toy.collaborators)
             [ClickStart; RecogResult (str "e four")] init in
  mode (step s (RecogResult (str "nope"))) = Mode.MOVE /\
  pendingSan (step s (RecogResult (str "what"))) = str "e4".
Proof.
  cbv zeta.
  pose proof (X10_confirm_phase (collaborators := Toy.collaborators)
                [ClickStart; RecogResult (str "e four")]
                {| r_busy := false; r_pendingSan := [] |} (str "nope")
                ltac:(vm_compute; reflexivity))
    as [H1 _].
  pose proof (X10_confirm_phase (collaborators := Toy.collaborators)
                [ClickStart; RecogResult (str "e four")]
                {| r_busy := false; r_pendingSan := [] |} (str "what")
                ltac:(vm_compute; reflexivity))
    as [_ [H2 _]].
  specialize (H1 ltac:(vm_compute; reflexivity)).
  specialize (H2 ltac:(vm_compute; reflexivity)).
  destruct H1 as [H1 _]. destruct H2 as [_ [H2 _]].
  split; [exact H1|]. rewrite H2. vm_compute. reflexivity.
Defined.

Section Moves.

Context {collaborators : Collaborators}.

Lemma run_app (l l' : list Event) (s : State) : run (l ++ l') s = run l' (run l s).
Proof. apply fold_left_app. Qed.

(** X11: with a move session running, transcripts that give no SAN are each
    answered by the same apology and by a new session of the same callback,
    as many times as they come: there is no bound on the retries, and the
    dialogue is in mode MOVE with nothing pending after each of them. *)
Theorem X11_unrecognized_retry (events : list Event) (r : Render) (raws : list jsstring) :
  let s := run events init in
  let s' := run (map RecogResult raws) s in
  live s = true -> recogRef s = Some (onMove r) ->
  Forall (fun raw => sanFromSpeech raw = []) raws ->
  live s' = true /\ recogRef s' = Some (onMove r)
  /\ (raws <> [] -> mode s' = Mode.MOVE /\ pendingSan s' = [])
  /\ effects s' = effects s
       ++ flat_map (fun _ => [Spoken (str "I did not catch that. Please repeat.");
                              Stopped; Started]) raws.
Proof.
  cbv zeta. intros Hl Hcb Hraws. revert events Hl Hcb.
  induction Hraws as [|raw raws Hraw _ IH]; intros events Hl Hcb.
  - cbn. rewrite app_nil_r. refine (conj Hl (conj Hcb (conj _ eq_refl))).
    intros Hne. now destruct Hne.
  - destruct (reachable_recognizer events (onMove r) Hcb) as [Hsr Hb]. cbn in Hb.
    set (s := run events init) in *.
    assert (Es : step s (RecogResult raw)
                 = mkState (chessRef s) (Some (onMove r)) (retired s ++ [onMove r]) true
                     (moves s) StListening (busy s) false Mode.MOVE []
                     (effects s ++ [Spoken (str "I did not catch that. Please repeat.");
                                    Stopped; Started])).
    { cbn [step]. rewrite Hcb. cbn [onresult]. unfold moveResult. rewrite Hraw.
      cbn [isEmpty]. unfold startListeningForMove. rewrite Hb.
      rewrite (startListeningInternal_restart _ (onMove r)) by (trivial; exact Hcb).
      cbn. now rewrite <- !app_assoc. }
    assert (Er : run (events ++ [RecogResult raw]) init = step s (RecogResult raw))
      by (rewrite run_app; reflexivity).
    specialize (IH (events ++ [RecogResult raw])).
    rewrite Er, Es in IH. cbn [live recogRef effects] in IH.
    destruct (IH eq_refl eq_refl) as [H1 [H2 [H3 H4]]].
    cbn [map]. change (run (RecogResult raw :: map RecogResult raws) s)
      with (run (map RecogResult raws) (step s (RecogResult raw))).
    rewrite Es. repeat split; trivial.
    + destruct raws as [|raw' raws]; [reflexivity | apply H3; discriminate].
    + destruct raws as [|raw' raws]; [reflexivity | apply H3; discriminate].
    + rewrite H4. cbn [flat_map]. now rewrite <- !app_assoc.
Qed.

(** X12: when a confirm recognizer in [recogRef.current] gives a
    transcript with a CONFIRM verdict, while its session runs or after it
    was stopped, and the move application accepts the SAN of the callback's
    render: unless the game is over, the move is
    recorded, the engine is sent the position after that move and then the
    search command, once, the busy flag is set and no session is left
    running; when the move mates or draws, the result is said
    and nothing else is started: the mode and the pending SAN stay. *)
Theorem X12_player_move (events : list Event) (r : Render) (raw msan : jsstring)
    (chess : Chess) :
  let s := run events init in
  let s' := step s (RecogResult raw) in
  recogRef s = Some (onConfirm r) ->
  interpretConfirmCommand raw = Cmd.CONFIRM ->
  moveSan (chessRef s) (r_pendingSan r) = Some (msan, chess) ->
  chessRef s' = chess /\ moves s' = moves s ++ [msan] /\ live s' = false /\
  (isCheckmate chess || isDraw chess = false ->
   busy s' = true /\ mode s' = Mode.MOVE /\ pendingSan s' = []
   /\ effects s' = effects s
        ++ [Stopped; MoveTried (r_pendingSan r);
            Spoken (str "You played: " ++ msan ++ str ".");
            Posted (str "position fen " ++ fen chess); Posted (str "go depth 8")]) /\
  (isCheckmate chess || isDraw chess = true ->
   busy s' = busy s /\ mode s' = mode s /\ pendingSan s' = pendingSan s
   /\ effects s' = effects s
        ++ [Stopped; MoveTried (r_pendingSan r);
            Spoken (if isCheckmate chess then str "Checkmate." else str "Draw.")]).
Proof.
  intros s s' Hcb Hcmd Hmove.
  destruct (reachable_recognizer events (onConfirm r) Hcb) as [Hsr Hb]. cbn in Hb.
  assert (Es : s' = applyPlayerSan r (r_pendingSan r) (stopListening (set_live false s))).
  { unfold s'. cbn [step]. rewrite Hcb. cbn [onresult]. unfold confirmResult.
    now rewrite Hcmd. }
  rewrite (stopListening_stop (onConfirm r)) in Es by exact Hcb.
  unfold applyPlayerSan in Es. rewrite Hb in Es. cbn [chessRef emit set_live] in Es.
  rewrite Hmove in Es. unfold requestEngineMove, postMessage in Es. rewrite Hsr in Es.
  destruct (isCheckmate chess); [|destruct (isDraw chess)]; rewrite Es; cbn;
    rewrite <- ?app_assoc; repeat split; trivial; discriminate.
Qed.

End Moves.

Lemma X11_unrecognized_retry_witness :
  let s := run (collaborators := Toy.collaborators) [ClickStart] init in
  let s' := run (map RecogResult [str "..."; str "?"; str "!"]) s in
  live s' = true /\ recogRef s' = Some (onMove {| r_busy := false; r_pendingSan := [] |}).
Proof.
  pose proof (X11_unrecognized_retry (collaborators := Toy.collaborators)
                [ClickStart] {| r_busy := false; r_pendingSan := [] |}
                [str "..."; str "?"; str "!"] eq_refl eq_refl
                ltac:(repeat constructor)) as [H1 [H2 _]].
  exact (conj H1 H2).
Defined.

Lemma X12_player_move_witness :
  let s := run (collaborators := Toy.collaborators)
             [ClickStart; RecogResult (str "e four"); RecogStarted; ClickStop;
              ClickStart; RecogResult (str "e four")] init in
  let s' := step s (RecogResult (str "yes")) in
  moves s' = moves s ++ [str "e4"] /\ busy s' = true.
Proof.
  pose proof (X12_player_move (collaborators := Toy.collaborators)
                [ClickStart; RecogResult (str "e four"); RecogStarted; ClickStop;
                 ClickStart; RecogResult (str "e four")]
                {| r_busy := false; r_pendingSan := str "e4" |} (str "yes")
                (str "e4") [str "e4"]
                ltac:(vm_compute; reflexivity)
                ltac:(vm_compute; reflexivity) ltac:(vm_compute; reflexivity))
    as [_ [H1 [_ [H2 _]]]].
  specialize (H2 ltac:(vm_compute; reflexivity)). destruct H2 as [H2 _].
  exact (conj H1 H2).
Defined.

(** ** The lines of the engine *)

Lemma word_cons (t : jsstring) :
  word t -> exists c t', t = c :: t' /\ isSpace c = false
                         /\ forallb (fun c => negb (isSpace c)) t' = true.
Proof.
  intros [Hne H]. destruct t as [|c t']; [contradiction|].
  cbn [forallb] in H. apply andb_true_iff in H. destruct H as [Hc H].
  exists c, t'. repeat split; trivial. now apply negb_true_iff.
Qed.

Lemma collapse_nospace (t : jsstring) (b : bool) (rest : jsstring) :
  word t -> collapseFrom b (t ++ rest) = t ++ collapseFrom false rest.
Proof.
  intros Hw. destruct (word_cons t Hw) as [c [t' [-> [Hc Ht']]]]. clear Hw.
  revert c b Hc. induction t' as [|d t' IH]; intros c b Hc;
    cbn [app collapseFrom]; rewrite Hc; f_equal.
  cbn [forallb] in Ht'. apply andb_true_iff in Ht'. destruct Ht' as [Hd Ht'].
  apply (IH Ht' d false). now apply negb_true_iff.
Qed.

Lemma collapse_words (l : list jsstring) (b : bool) :
  Forall word l -> collapseFrom b (join l) = join l.
Proof.
  intros H. revert b. induction H as [|t l Ht Hl IH]; intros b; [reflexivity|].
  destruct l as [|u l].
  - change (join [t]) with t. rewrite <- (app_nil_r t) at 1.
    rewrite collapse_nospace by trivial. apply app_nil_r.
  - change (join (t :: u :: l)) with (t ++ space :: join (u :: l)).
    rewrite collapse_nospace by trivial. f_equal.
    change (collapseFrom false (space :: join (u :: l)))
      with (space :: collapseFrom true (join (u :: l))).
    f_equal. apply IH.
Qed.

Lemma word_no_space (t : jsstring) (c : ascii) : word t -> In c t -> isSpace c = false.
Proof.
  intros [_ H] Hc. apply negb_true_iff. now apply (forallb_In _ _ _ H).
Qed.

Lemma words_first (l : list jsstring) (c : ascii) (r : jsstring) :
  Forall word l -> join l = c :: r -> isSpace c = false.
Proof.
  intros H E. destruct H as [|t l Ht Hl]; [discriminate|].
  apply (word_no_space t); trivial.
  destruct (word_cons t Ht) as [d [t' [-> _]]].
  destruct l; cbn in E; injection E as <- _; now left.
Qed.

Lemma words_last (l : list jsstring) (r : jsstring) (c : ascii) :
  Forall word l -> join l = r ++ [c] -> isSpace c = false.
Proof.
  intros H. revert r. induction H as [|t l Ht Hl IH]; intros r E.
  - destruct r; discriminate.
  - destruct l as [|u l].
    + apply (word_no_space t); trivial. cbn in E. rewrite E.
      apply in_or_app. right. now left.
    + change (join (t :: u :: l)) with (t ++ space :: join (u :: l)) in E.
      destruct (word_cons u ltac:(now inversion Hl)) as [d [u' [Eu _]]].
      assert (Hne : join (u :: l) <> []) by (rewrite Eu; destruct l; discriminate).
      destruct (exists_last Hne) as [r' [c' E']].
      rewrite E' in E. change (t ++ space :: r' ++ [c']) with (t ++ (space :: r') ++ [c']) in E.
      rewrite app_assoc in E. apply app_inj_tail in E. destruct E as [_ <-].
      now apply (IH r').
Qed.

Lemma split_nospace (t rest : jsstring) :
  forallb (fun c => negb (isSpace c)) t = true ->
  split (t ++ space :: rest) = t :: split rest /\ split t = [t].
Proof.
  induction t as [|c t IH]; intros H.
  - cbn. destruct (ascii_dec space space); [auto | contradiction].
  - cbn [forallb] in H. apply andb_true_iff in H. destruct H as [Hc H].
    destruct (IH H) as [E1 E2].
    assert (Hsp : c <> space) by (intros ->; discriminate Hc).
    cbn [app split]. destruct (ascii_dec c space); [contradiction|].
    now rewrite E1, E2.
Qed.

Lemma split_words (l : list jsstring) :
  Forall word l -> l <> [] -> split (join l) = l.
Proof.
  induction 1 as [|t l Ht Hl IH]; intros Hne; [contradiction|].
  destruct Ht as [_ Hall]. destruct l as [|u l].
  - now apply split_nospace.
  - change (join (t :: u :: l)) with (t ++ space :: join (u :: l)).
    rewrite (proj1 (split_nospace t _ Hall)). f_equal. now apply IH.
Qed.

(** The parts of a line made of words and single spaces are these words. *)
Lemma splitSpaces_words (l : list jsstring) :
  Forall word l -> l <> [] -> splitSpaces (join l) = l.
Proof.
  intros H Hne. unfold splitSpaces.
  assert (Et : trim (join l) = join l).
  { apply trim_fixed.
    - intros c r E. now apply (words_first l c r).
    - intros r c E. now apply (words_last l r c). }
  rewrite Et. unfold collapseSpaces. rewrite collapse_words by trivial.
  now apply split_words.
Qed.

Section EngineReply.

Context {collaborators : Collaborators}.

(** X13: a line of the engine made of bestmove and further words,
    separated by single spaces, is read as follows: the first word after
    bestmove, or (none) when there is none, goes through [uciToMove]; without
    a move the user is told so and a move session starts; a move that the
    move application accepts is recorded with its SAN, the busy flag is
    cleared and, unless the game is over, a move session starts with the
    callback of the first render.  The words after the move (ponder and its
    move) are not looked at. *)
Theorem X13_engine_reply (s : State) (parts : list jsstring) :
  let line := join (str "bestmove" :: parts) in
  let uci := match parts with u :: _ => u | [] => str "(none)" end in
  let s' := step s (EngineMessage line) in
  SpeechRecognition = true ->
  Forall word parts -> includes line (str "uciok") = false ->
  (uciToMove uci = None ->
   busy s' = false /\ status s' = StListening /\ mode s' = Mode.MOVE /\ pendingSan s' = []
   /\ live s' = true /\ recogRef s' = Some (onMove firstRender)
   /\ In (Spoken (str "I have no moves.")) (effects s')) /\
  (forall moveObj msan chess,
     uciToMove uci = Some moveObj ->
     moveObject (chessRef s) moveObj = Some (msan, chess) ->
     chessRef s' = chess /\ moves s' = moves s ++ [msan] /\ busy s' = false
     /\ In (Spoken (str "My move: " ++ msan ++ str ". Your move.")) (effects s')
     /\ (isCheckmate chess || isDraw chess = false ->
         mode s' = Mode.MOVE /\ pendingSan s' = [] /\ live s' = true
         /\ recogRef s' = Some (onMove firstRender))
     /\ (isCheckmate chess || isDraw chess = true ->
         mode s' = mode s /\ pendingSan s' = pendingSan s /\ live s' = live s
         /\ recogRef s' = recogRef s)).
Proof.
  intros line uci s' Hsr Hparts Hok.
  assert (Hw : Forall word (str "bestmove" :: parts))
    by (constructor; [split; [discriminate | reflexivity] | exact Hparts]).
  assert (Esplit : splitSpaces line = str "bestmove" :: parts)
    by (apply splitSpaces_words; [exact Hw | discriminate]).
  assert (Hstart : startsWith line (str "bestmove") = true).
  { apply startsWith_spec. unfold line. destruct parts as [|u parts].
    - now exists [].
    - now exists (space :: join (u :: parts)). }
  assert (Hne : isEmpty line = false).
  { apply startsWith_spec in Hstart. destruct Hstart as [post ->]. reflexivity. }
  assert (Euci : match nth_error (splitSpaces line) 1 with
                 | Some u => if isEmpty u then str "(none)" else u
                 | None => str "(none)"
                 end = uci).
  { rewrite Esplit. unfold uci. destruct parts as [|u parts]; [reflexivity|].
    cbn [nth_error]. inversion Hparts as [|? ? [Hu _] _]. now destruct u. }
  assert (Es : s' = onmessage line s) by (unfold s'; cbn [step]; now rewrite Hsr).
  unfold onmessage in Es. rewrite Hne, Hok, Hstart, Euci in Es.
  assert (Hstartmove : forall s0,
            startListeningForMove firstRender s0
            = startListeningInternal (onMove firstRender)
                (setStatus StListening (setPendingSan [] (setMode Mode.MOVE s0))))
    by reflexivity.
  assert (Hint : forall cb s0,
            let s1 := startListeningInternal cb s0 in
            live s1 = true /\ recogRef s1 = Some cb /\ mode s1 = mode s0
            /\ pendingSan s1 = pendingSan s0 /\ busy s1 = busy s0 /\ status s1 = status s0
            /\ chessRef s1 = chessRef s0 /\ moves s1 = moves s0
            /\ forall e, In e (effects s0) -> In e (effects s1)).
  { intros cb s0. unfold startListeningInternal, stopListening. rewrite Hsr.
    destruct (recogRef s0); cbn; repeat split; trivial; intros e He;
      repeat (apply in_or_app; left); trivial. }
  split.
  - intros Enone. rewrite Enone, Hstartmove in Es.
    destruct (Hint (onMove firstRender)
                (setStatus StListening (setPendingSan [] (setMode Mode.MOVE
                   (speak (str "I have no moves.")
                      (setStatus StEngineNoMoves (setBusy false s)))))))
      as [H1 [H2 [H3 [H4 [H5 [H6 [_ [_ H7]]]]]]]].
    rewrite Es. repeat split; trivial.
    apply H7. cbn. apply in_or_app. right. now left.
  - intros moveObj msan chess Esome Emove. rewrite Esome, Emove in Es.
    cbn [chessRef setBusy speak emit setStatus setMoves set_chessRef] in Es.
    destruct (isCheckmate chess); [|destruct (isDraw chess)]; cbn [orb].
    + rewrite Es. cbn. repeat split; trivial; try discriminate.
      apply in_or_app. left. apply in_or_app. right. now left.
    + rewrite Es. cbn. repeat split; trivial; try discriminate.
      apply in_or_app. left. apply in_or_app. right. now left.
    + rewrite Hstartmove in Es.
      match type of Es with _ = startListeningInternal ?cb ?s0 =>
        destruct (Hint cb s0) as [H1 [H2 [H3 [H4 [H5 [H6 [H8 [H9 H7]]]]]]]]
      end.
      rewrite Es. repeat split; trivial; try discriminate.
      apply H7. cbn. apply in_or_app. right. now left.
Qed.

End EngineReply.

Lemma X13_engine_reply_witness :
  let s := step (init (collaborators := Toy.collaborators))
            (EngineMessage (str "bestmove e7e5 ponder g1f3")) in
  moves s = [str "e5"] /\ busy s = false.
Proof.
  cbv zeta.
  pose proof (X13_engine_reply (collaborators := Toy.collaborators) init
                [str "e7e5"; str "ponder"; str "g1f3"] eq_refl
                ltac:(repeat constructor; discriminate)
                ltac:(vm_compute; reflexivity)) as [_ H].
  specialize (H {| from := str "e7"; to := str "e5"; promotion := None |}
                (str "e5") [str "e5"] eq_refl eq_refl).
  destruct H as [_ [H1 [H2 _]]]. exact (conj H1 H2).
Defined.

(** ** The dialogue: stop, then start *)

Lemma startsAfterStop_snoc (l : list Effect) (e : Effect) :
  e <> Started -> startsAfterStop l -> startsAfterStop (l ++ [e]).
Proof.
  intros He Hl l1 l2 E Hin.
  assert (Hne : Started :: l2 <> []) by discriminate.
  destruct (exists_last Hne) as [l' [x E']].
  rewrite E' in E. rewrite app_assoc in E. apply app_inj_tail in E.
  destruct E as [E <-].
  destruct l' as [|y l'].
  - cbn in E'. injection E' as E' _. congruence.
  - cbn in E'. injection E' as <- _. now apply (Hl l1 l').
Qed.

Lemma startsAfterStop_start (l : list Effect) :
  startsAfterStop l ->
  (In Started l -> exists l0, l = l0 ++ [Stopped]) ->
  startsAfterStop (l ++ [Started]).
Proof.
  intros Hl Hlast l1 l2 E Hin.
  assert (Hne : Started :: l2 <> []) by discriminate.
  destruct (exists_last Hne) as [l' [x E']].
  rewrite E' in E. rewrite app_assoc in E. apply app_inj_tail in E.
  destruct E as [E _].
  destruct l' as [|y l'].
  - rewrite app_nil_r in E. subst l1. now apply Hlast.
  - cbn in E'. injection E' as <- _. now apply (Hl l1 l').
Qed.

Section Discipline.

Context {collaborators : Collaborators}.

Lemma disciplined_emit (e : Effect) (s : State) :
  e <> Started -> disciplined s -> disciplined (emit e s).
Proof.
  intros He [H1 H2]. split.
  - now apply startsAfterStop_snoc.
  - intros Hr Hin. cbn [effects emit] in Hin. apply in_app_or in Hin.
    destruct Hin as [Hin | [E | []]]; [now apply (H2 Hr) | now apply He].
Qed.

Lemma disciplined_stop (s : State) : disciplined s -> disciplined (stopListening s).
Proof.
  intros H. unfold stopListening. destruct (recogRef s) eqn:E; [|exact H].
  apply (disciplined_emit Stopped s ltac:(discriminate)) in H.
  destruct H as [H1 H2]. split; [exact H1|]. cbn. congruence.
Qed.

Lemma disciplined_start (cb : Callback) (s : State) :
  disciplined s -> disciplined (startListeningInternal cb s).
Proof.
  intros [H1 H2]. unfold startListeningInternal.
  destruct SpeechRecognition; cbn [negb]; [|now split].
  unfold stopListening. destruct (recogRef s) eqn:E.
  - split; [|discriminate]. cbn.
    apply startsAfterStop_start; [apply startsAfterStop_snoc; [discriminate | exact H1]|].
    intros _. now exists (effects s).
  - split; [|discriminate]. cbn.
    apply startsAfterStop_start; [exact H1|]. intros Hin. now destruct (H2 eq_refl).
Qed.

Lemma disciplined_startForMove (r : Render) (s : State) :
  disciplined s -> disciplined (startListeningForMove r s).
Proof.
  intros H. unfold startListeningForMove. destruct (r_busy r); [exact H|].
  apply disciplined_start. exact H.
Qed.

Lemma disciplined_startForConfirm (r : Render) (s : State) :
  disciplined s -> disciplined (startListeningForConfirm r s).
Proof.
  intros H. unfold startListeningForConfirm. destruct (r_busy r); [exact H|].
  apply disciplined_start. exact H.
Qed.

Lemma disciplined_speak (text : jsstring) (s : State) :
  disciplined s -> disciplined (speak text s).
Proof. apply disciplined_emit. discriminate. Qed.

Lemma disciplined_applyPlayerSan (r : Render) (san : jsstring) (s : State) :
  disciplined s -> disciplined (applyPlayerSan r san s).
Proof.
  intros H. unfold applyPlayerSan. destruct (r_busy r); [exact H|].
  apply (disciplined_emit (MoveTried san) s ltac:(discriminate)) in H.
  cbn [chessRef emit]. destruct (moveSan (chessRef s) san) as [[msan chess]|].
  - destruct (isCheckmate chess); [|destruct (isDraw chess)].
    + now apply disciplined_speak.
    + now apply disciplined_speak.
    + unfold requestEngineMove, postMessage. destruct SpeechRecognition.
      * apply disciplined_emit; [discriminate|]. apply disciplined_emit; [discriminate|].
        now apply disciplined_speak.
      * now apply disciplined_speak.
  - apply disciplined_startForMove. now apply disciplined_speak.
Qed.

Lemma disciplined_onresult (cb : Callback) (raw : jsstring) (s : State) :
  disciplined s -> disciplined (onresult cb raw s).
Proof.
  intros H. destruct cb as [r | r]; cbn [onresult].
  - unfold moveResult. destruct (isEmpty _).
    + apply disciplined_startForMove. now apply disciplined_speak.
    + apply disciplined_startForConfirm. now apply disciplined_speak.
  - unfold confirmResult. destruct (interpretConfirmCommand raw).
    + apply disciplined_applyPlayerSan. now apply disciplined_stop.
    + apply disciplined_startForMove. apply disciplined_speak.
      now apply (disciplined_stop s).
    + apply disciplined_startForConfirm. now apply disciplined_speak.
    + destruct (negb _); apply disciplined_startForConfirm; now apply disciplined_speak.
Qed.

Lemma disciplined_onmessage (line : jsstring) (s : State) :
  disciplined s -> disciplined (onmessage line s).
Proof.
  intros H. unfold onmessage.
  destruct (isEmpty line); [exact H|].
  destruct (includes line (str "uciok")); [exact H|].
  destruct (startsWith line (str "bestmove")); [|exact H].
  destruct (uciToMove _) as [moveObj|].
  - assert (H' : disciplined
                   (match moveObject (chessRef s) moveObj with
                    | Some (msan, chess) =>
                        speak (str "My move: " ++ msan ++ str ". Your move.")
                          (setStatus (StMyMove msan)
                             (setMoves (moves s ++ [msan]) (set_chessRef chess s)))
                    | None => s
                    end)).
    { destruct (moveObject (chessRef s) moveObj) as [[msan chess]|]; [|exact H].
      now apply disciplined_speak. }
    revert H'. generalize (match moveObject (chessRef s) moveObj with
                           | Some (msan, chess) =>
                               speak (str "My move: " ++ msan ++ str ". Your move.")
                                 (setStatus (StMyMove msan)
                                    (setMoves (moves s ++ [msan]) (set_chessRef chess s)))
                           | None => s
                           end).
    intros s0 H0. cbv zeta.
    destruct (isCheckmate _); [|destruct (isDraw _)].
    + now apply disciplined_speak.
    + now apply disciplined_speak.
    + now apply disciplined_startForMove.
  - apply disciplined_startForMove. now apply disciplined_speak.
Qed.

Lemma step_disciplined (s : State) (ev : Event) : disciplined s -> disciplined (step s ev).
Proof.
  intros H. destruct ev; cbn [step].
  - destruct (busy s); [exact H|]. unfold newGame.
    apply disciplined_startForMove. apply disciplined_speak.
    now apply (disciplined_stop s).
  - destruct (busy s || listening s); [exact H|]. now apply disciplined_startForMove.
  - destruct (listening s); [|exact H]. now apply disciplined_stop.
  - destruct (recogRef s); exact H.
  - destruct (recogRef s) as [cb|] eqn:E; [|exact H].
    apply disciplined_onresult. exact H.
  - destruct (recogRef s); [|exact H]. unfold onerror. now apply disciplined_speak.
  - exact H.
  - destruct (nth_error (retired s) n); [|exact H]. now apply disciplined_onresult.
  - destruct (nth_error (retired s) n); [|exact H]. unfold onerror.
    now apply disciplined_speak.
  - destruct SpeechRecognition; [|exact H]. now apply disciplined_onmessage.
Qed.

Lemma init_disciplined : disciplined init.
Proof.
  assert (Hno : ~ In Started (effects init))
    by (unfold init; cbn; destruct SpeechRecognition; cbn; intuition discriminate).
  split.
  - intros l1 l2 E _. exfalso. apply Hno. rewrite E. apply in_or_app. right. now left.
  - intros _. exact Hno.
Qed.

Lemma run_disciplined (events : list Event) (s : State) :
  disciplined s -> disciplined (run events s).
Proof.
  revert s. induction events as [|ev events IH]; intros s Hs; trivial.
  apply IH. now apply step_disciplined.
Qed.

(** X14: in the log of what the component does to its collaborators,
    whatever the events are, every start of a recognizer session except the
    first one comes right after a stop: the recognizer before is always
    told to stop before the next one is started. *)
Theorem X14_stop_then_start (events : list Event) (l1 l2 : list Effect) :
  effects (run events init) = l1 ++ Started :: l2 ->
  In Started l1 ->
  exists l0, l1 = l0 ++ [Stopped].
Proof. exact (proj1 (run_disciplined events init init_disciplined) l1 l2). Qed.

End Discipline.

Lemma X14_stop_then_start_witness :
  exists l0,
    [Posted (str "uci"); Posted (str "isready"); Started;
     Spoken (str "I did not catch that. Please repeat."); Stopped]
    = l0 ++ [Stopped].
Proof.
  apply (X14_stop_then_start (collaborators := Toy.collaborators)
           [ClickStart; RecogResult (str "...")] _ []).
  - vm_compute. reflexivity.
  - simpl. tauto.
Defined.

(** ** The list of moves *)

Lemma list_pair_ind {A : Type} (P : list A -> Prop) :
  P [] -> (forall x, P [x]) -> (forall x y l, P l -> P (x :: y :: l)) ->
  forall l, P l.
Proof.
  intros H0 H1 H2 l. enough (P l /\ forall x, P (x :: l)) by tauto.
  induction l as [|a l [IH1 IH2]]; [split; trivial|].
  split; [apply IH2|]. intros x. now apply H2.
Qed.

Lemma formatLoop (pre suf : list jsstring) (out : jsstring) :
  fold_left (formatStep (pre ++ suf)) (seq (length pre) (length suf)) out
  = out ++ renderFrom (length pre) suf.
Proof.
  revert pre out. induction suf as [|m r IH]; intros pre out.
  - cbn. now rewrite app_nil_r.
  - cbn [length seq fold_left renderFrom].
    replace (pre ++ m :: r) with ((pre ++ [m]) ++ r) by now rewrite <- app_assoc.
    replace (S (length pre)) with (length (pre ++ [m]))
      by (rewrite length_app; cbn [length]; lia).
    rewrite IH. unfold formatStep.
    replace (nth_error ((pre ++ [m]) ++ r) (length pre)) with (Some m).
    2:{ rewrite <- app_assoc. rewrite nth_error_app2 by lia.
        now rewrite Nat.sub_diag. }
    cbn [orEmpty]. rewrite length_app. cbn [length].
    replace (length pre + 1) with (S (length pre)) by lia.
    destruct (length pre mod 2 =? 0); destruct (length pre mod 2 =? 1);
      now rewrite <- ?app_assoc.
Qed.

Lemma parity_facts (k : nat) :
  (2 * k) mod 2 = 0 /\ (2 * k) / 2 = k /\ (S (2 * k)) mod 2 = 1 /\ S (S (2 * k)) = 2 * S k.
Proof.
  repeat split.
  - rewrite Nat.mul_comm. apply Nat.Div0.mod_mul.
  - rewrite Nat.mul_comm. apply Nat.div_mul. discriminate.
  - replace (S (2 * k)) with (1 + k * 2) by lia. now rewrite Nat.Div0.mod_add.
  - lia.
Qed.

Lemma trimEnd_fixed (s r : jsstring) (c : ascii) :
  s = r ++ [c] -> isSpace c = false -> trimEnd s = s.
Proof.
  intros -> Hc. unfold trimEnd. rewrite rev_app_distr. cbn [rev app trimStart].
  rewrite Hc. cbn [rev]. now rewrite rev_involutive.
Qed.

Lemma trimEnd_snoc (s : jsstring) (c : ascii) :
  isSpace c = true -> trimEnd (s ++ [c]) = trimEnd s.
Proof.
  intros Hc. unfold trimEnd. rewrite rev_app_distr. cbn [rev app trimStart].
  now rewrite Hc.
Qed.

(** The loop gives the lines, joined by line feeds, and one more white
    space character; the lines end with the last move. *)
Lemma renderFrom_lines (moves : list jsstring) :
  forall k, moves <> [] ->
  exists r sep,
    isSpace sep = true
    /\ joinLines (moveLines (S k) moves) = r ++ last moves []
    /\ renderFrom (2 * k) moves = joinLines (moveLines (S k) moves) ++ [sep].
Proof.
  induction moves as [| w | w b rest IH] using list_pair_ind; intros k Hne.
  - contradiction.
  - destruct (parity_facts k) as [E0 [E1 [E2 E3]]].
    exists (decimal (S k) ++ str ". "), space. split; [reflexivity|].
    cbn [moveLines joinLines last renderFrom]. rewrite E0, E1.
    replace (k + 1) with (S k) by lia. cbn [Nat.eqb].
    split; now rewrite <- ?app_assoc.
  - destruct (parity_facts k) as [E0 [E1 [E2 E3]]].
    cbn [renderFrom]. rewrite E0, E1, E2, E3.
    replace (k + 1) with (S k) by lia. cbn [Nat.eqb].
    destruct rest as [|x rest].
    + exists (decimal (S k) ++ str ". " ++ w ++ [space]), newline.
      split; [reflexivity|]. cbn [moveLines joinLines last renderFrom].
      split; rewrite <- ?app_assoc; cbn [app]; now rewrite <- ?app_assoc, ?app_nil_r.
    + destruct (IH (S k) ltac:(discriminate)) as [r [sep [Hsep [El Er]]]].
      exists ((decimal (S k) ++ str ". " ++ w ++ space :: b) ++ newline :: r), sep.
      split; [exact Hsep|].
      assert (Ej : joinLines (moveLines (S k) (w :: b :: x :: rest))
                   = (decimal (S k) ++ str ". " ++ w ++ space :: b)
                     ++ newline :: joinLines (moveLines (S (S k)) (x :: rest))).
      { change (moveLines (S k) (w :: b :: x :: rest))
          with ((decimal (S k) ++ str ". " ++ w ++ space :: b)
                :: moveLines (S (S k)) (x :: rest)).
        assert (Hm : exists j l, moveLines (S (S k)) (x :: rest) = j :: l)
          by (destruct rest; cbn [moveLines]; eauto).
        destruct Hm as [j [l Em]]. rewrite Em. reflexivity. }
      split.
      * rewrite Ej, El. change (last (w :: b :: x :: rest) []) with (last (x :: rest) []).
        now rewrite <- !app_assoc.
      * rewrite Er, Ej. rewrite <- ?app_assoc. cbn [app]. now rewrite <- ?app_assoc.
Qed.

(** X15: the list of moves is never shown with white space at its end;
    without moves it reads No moves yet.; otherwise, when the last move
    ends with a character that is not white space, it is made of one line
    for each pair of moves, with the number of the move, a dot, the move of
    White and the move of Black, the last line having the move of White
    alone when the number of moves is odd. *)
Theorem X15_formatMovesSan_lines :
  formatMovesSan [] = str "No moves yet." /\
  (forall moves r c, formatMovesSan moves = r ++ [c] -> isSpace c = false) /\
  (forall moves, moves <> [] -> word (last moves []) ->
     formatMovesSan moves = joinLines (moveLines 1 moves)).
Proof.
  assert (Hbody : forall moves, moves <> [] ->
            formatMovesSan moves = trimEnd (renderFrom 0 moves)).
  { intros moves Hne. unfold formatMovesSan.
    destruct moves as [|m moves]; [contradiction|].
    change (length (m :: moves) =? 0) with false. cbv iota.
    exact (f_equal trimEnd (formatLoop [] (m :: moves) [])). }
  split; [reflexivity|]. split.
  - intros moves r c E. destruct moves as [|m moves].
    + cbn in E. assert (Hr : rev (r ++ [c]) = rev (str "No moves yet.")) by now rewrite <- E.
      rewrite rev_app_distr in Hr. cbn in Hr. injection Hr as -> _. reflexivity.
    + rewrite Hbody in E by discriminate. now apply trimEnd_last in E.
  - intros moves Hne Hw. rewrite Hbody by trivial.
    destruct (renderFrom_lines moves 0 Hne) as [r [sep [Hsep [El Er]]]].
    change (2 * 0) with 0 in Er. rewrite Er, trimEnd_snoc by trivial.
    destruct (exists_last (proj1 Hw)) as [m' [c Em]].
    apply trimEnd_fixed with (r := r ++ m') (c := c).
    + etransitivity; [exact El|].
      etransitivity; [exact (f_equal (app r) Em) | apply app_assoc].
    + apply (word_no_space _ c Hw).
      assert (Hin : In c (m' ++ [c])) by (apply in_or_app; right; now left).
      revert Hin. now apply eq_ind_r with (x := m' ++ [c]) (y := last moves []).
Qed.

Lemma X15_formatMovesSan_lines_witness :
  formatMovesSan [str "e4"; str "e5"; str "Nf3"]
  = str "1. e4 e5" ++ newline :: str "2. Nf3".
Proof.
  rewrite (proj2 (proj2 X15_formatMovesSan_lines) [str "e4"; str "e5"; str "Nf3"]).
  - reflexivity.
  - discriminate.
  - split; [discriminate | reflexivity].
Defined.

(** ** The vocabulary of the classifier *)

Lemma includes_longer (t w more : jsstring) :
  includes t (w ++ more) = true -> includes t w = true.
Proof.
  rewrite !includes_spec. intros [pre [post ->]]. exists pre, (more ++ post).
  now rewrite <- !app_assoc.
Qed.

Lemma includes_inner (t pre w : jsstring) :
  includes t (pre ++ w) = true -> includes t w = true.
Proof.
  rewrite !includes_spec. intros [pre' [post ->]]. exists (pre' ++ pre), post.
  now rewrite <- !app_assoc.
Qed.

(** X16: three words of the vocabulary never decide a verdict: okay holds
    ok, nope holds no and say again holds again, so that the classifier is
    the same without them.  The empty transcript is UNKNOWN. *)
Theorem X16_redundant_words (raw : jsstring) :
  interpretConfirmCommand raw =
  classifyWith
    [str "confirm"; str "yes"; str "yeah"; str "yep"; str "ok"; str "go"; str "do it";
     str "accept"]
    [str "cancel"; str "no"; str "stop"; str "reject"; str "discard"]
    [str "repeat"; str "again"; str "what"; str "pardon"] raw
  /\ interpretConfirmCommand [] = Cmd.UNKNOWN.
Proof.
  split; [|reflexivity].
  unfold interpretConfirmCommand, classifyWith. set (t := toLowerCase raw).
  assert (Ey : someIncluded t yes
               = someIncluded t [str "confirm"; str "yes"; str "yeah"; str "yep"; str "ok";
                                 str "go"; str "do it"; str "accept"]).
  { unfold someIncluded, yes. cbn [existsb].
    pose proof (includes_longer t (str "ok") (str "ay")) as H.
    change (str "ok" ++ str "ay") with (str "okay") in H.
    destruct (includes t (str "okay")); [rewrite H by reflexivity|]; cbn [orb];
      now rewrite ?orb_true_r. }
  assert (En : someIncluded t no
               = someIncluded t [str "cancel"; str "no"; str "stop"; str "reject";
                                 str "discard"]).
  { unfold someIncluded, no. cbn [existsb].
    pose proof (includes_longer t (str "no") (str "pe")) as H.
    change (str "no" ++ str "pe") with (str "nope") in H.
    destruct (includes t (str "nope")); [rewrite H by reflexivity|]; cbn [orb];
      now rewrite ?orb_true_r. }
  assert (Er : someIncluded t rep
               = someIncluded t [str "repeat"; str "again"; str "what"; str "pardon"]).
  { unfold someIncluded, rep. cbn [existsb].
    pose proof (includes_inner t (str "say ") (str "again")) as H.
    change (str "say " ++ str "again") with (str "say again") in H.
    destruct (includes t (str "say again")); [rewrite H by reflexivity|]; cbn [orb];
      now rewrite ?orb_true_r. }
  now rewrite Ey, En, Er.
Qed.

(** ** The dialogue: what listens *)

Section Sessions.

Context {collaborators : Collaborators}.

Lemma moveSessionSound_idle (s : State) : live s = false -> moveSessionSound s.
Proof. intros Hl Hl'. congruence. Qed.

Lemma stopListening_moveSessionSound (s : State) :
  moveSessionSound s -> moveSessionSound (stopListening s).
Proof.
  intros H. unfold stopListening. destruct (recogRef s) eqn:E.
  - now apply moveSessionSound_idle.
  - intros _ r Hr. cbn in Hr. congruence.
Qed.

Lemma startListeningForMove_moveSessionSound (r : Render) (s : State) :
  moveSessionSound s -> moveSessionSound (startListeningForMove r s).
Proof.
  intros H. unfold startListeningForMove. destruct (r_busy r); [exact H|].
  unfold startListeningInternal. destruct SpeechRecognition; cbn [negb].
  - intros _ r' _. unfold stopListening. now destruct (recogRef _).
  - intros _ r' _. now split.
Qed.

Lemma startListeningForConfirm_moveSessionSound (r : Render) (s : State) :
  moveSessionSound s -> moveSessionSound (startListeningForConfirm r s).
Proof.
  intros H. unfold startListeningForConfirm. destruct (r_busy r); [exact H|].
  unfold startListeningInternal. destruct SpeechRecognition; cbn [negb]; [|exact H].
  intros _ r' Hr. cbn in Hr. discriminate Hr.
Qed.

Lemma applyPlayerSan_moveSessionSound (r : Render) (san : jsstring) (s : State) :
  live s = false -> moveSessionSound (applyPlayerSan r san s).
Proof.
  intros Hl. unfold applyPlayerSan. destruct (r_busy r); [now apply moveSessionSound_idle|].
  cbn [chessRef emit]. destruct (moveSan (chessRef s) san) as [[msan chess]|].
  - destruct (isCheckmate chess); [now apply moveSessionSound_idle|].
    destruct (isDraw chess); [now apply moveSessionSound_idle|].
    apply moveSessionSound_idle. unfold requestEngineMove, postMessage.
    now destruct SpeechRecognition.
  - apply startListeningForMove_moveSessionSound. now apply moveSessionSound_idle.
Qed.

Lemma onresult_moveSessionSound (cb : Callback) (raw : jsstring) (s : State) :
  live s = false -> moveSessionSound (onresult cb raw s).
Proof.
  intros Hl. destruct cb as [r | r]; cbn [onresult].
  - unfold moveResult. destruct (isEmpty _).
    + apply startListeningForMove_moveSessionSound. now apply moveSessionSound_idle.
    + apply startListeningForConfirm_moveSessionSound. now apply moveSessionSound_idle.
  - unfold confirmResult. destruct (interpretConfirmCommand raw).
    + apply applyPlayerSan_moveSessionSound. now apply stopListening_live.
    + apply startListeningForMove_moveSessionSound. apply moveSessionSound_idle.
      cbn. now apply stopListening_live.
    + apply startListeningForConfirm_moveSessionSound. now apply moveSessionSound_idle.
    + destruct (negb _); apply startListeningForConfirm_moveSessionSound;
        now apply moveSessionSound_idle.
Qed.

Lemma step_moveSessionSound (s : State) (ev : Event) :
  inTime s ev = true -> moveSessionSound s -> moveSessionSound (step s ev).
Proof.
  intros Ht H. destruct ev; cbn [step]; cbn [inTime] in Ht; try discriminate Ht.
  - destruct (busy s); [exact H|]. unfold newGame.
    apply startListeningForMove_moveSessionSound.
    intros _ r' _. now split.
  - destruct (busy s || listening s); [exact H|].
    now apply startListeningForMove_moveSessionSound.
  - destruct (listening s); [|exact H]. now apply stopListening_moveSessionSound.
  - destruct (recogRef s); exact H.
  - destruct (recogRef s) as [cb|] eqn:E; [|exact H].
    now apply onresult_moveSessionSound.
  - destruct (recogRef s); [|exact H]. now apply moveSessionSound_idle.
  - exact H.
  - destruct SpeechRecognition; [|exact H]. unfold onmessage.
    destruct (isEmpty line); [exact H|].
    destruct (includes line (str "uciok")); [exact H|].
    destruct (startsWith line (str "bestmove")); [|exact H].
    destruct (uciToMove _) as [moveObj|].
    + destruct (moveObject (chessRef s) moveObj) as [[msan chess]|];
        (destruct (isCheckmate _); [exact H|]); (destruct (isDraw _); [exact H|]);
        now apply startListeningForMove_moveSessionSound.
    + now apply startListeningForMove_moveSessionSound.
Qed.

Lemma run_moveSessionSound (events : list Event) (s : State) :
  allInTime events s -> moveSessionSound s -> moveSessionSound (run events s).
Proof.
  revert s. induction events as [|ev events IH]; intros s Ht Hs; trivial.
  destruct Ht as [Hev Ht]. apply IH; trivial. now apply step_moveSessionSound.
Qed.

(** X17: as long as no recognizer answers after it was stopped or
    replaced, whenever a session is running the engine is not thinking, and
    the kind of the callback that listens agrees with the dialogue: a move
    callback in mode MOVE with nothing pending, a confirm callback in mode
    CONFIRM with a SAN pending. *)
Theorem X17_session_agrees (events : list Event) :
  let s := run events init in
  allInTime events init -> live s = true ->
  SpeechRecognition = true /\ busy s = false /\
  exists cb, recogRef s = Some cb /\ r_busy (renderOfCallback cb) = false /\
    match cb with
    | onMove _ => mode s = Mode.MOVE /\ pendingSan s = []
    | onConfirm _ => mode s = Mode.CONFIRM /\ pendingSan s <> []
    end.
Proof.
  intros s Ht Hl.
  destruct (run_good events init Ht init_good) as [Hp Hs]. fold s in Hp, Hs.
  destruct (Hs Hl) as [Hsr [cb [Hcb [Hb Hc]]]].
  pose proof (run_busyIdle events init Ht ltac:(discriminate)) as Hbusy. fold s in Hbusy.
  pose proof (run_moveSessionSound events init Ht (moveSessionSound_idle init eq_refl))
    as Hm.
  fold s in Hm.
  split; [exact Hsr|]. split.
  - destruct (busy s) eqn:Eb; [|reflexivity]. unfold busyIdle in Hbusy.
    rewrite Hbusy in Hl by exact Eb. discriminate Hl.
  - exists cb. repeat split; trivial. destruct cb as [r | r].
    + now apply (Hm Hl r).
    + specialize (Hc r eq_refl). split; [exact Hc | now apply Hp].
Qed.

(** X19: as long as no recognizer answers after it was stopped or
    replaced, a SAN is pending if and only if the mode is CONFIRM, after
    every event: buttons, transcripts, speech errors and engine lines keep
    the two in step, also at game over, where both stay. *)
Theorem X19_invariant_in_time (events : list Event) :
  let s := run events init in
  allInTime events init ->
  (pendingSan s <> [] <-> mode s = Mode.CONFIRM).
Proof. intros s Ht. exact (proj1 (run_good events init Ht init_good)). Qed.

(** X18: the New game button does nothing while the engine thinks;
    otherwise, with speech recognition, it puts a new game and an empty list
    of moves in place, resets the dialogue to mode MOVE with nothing
    pending, says so and starts a move session, whose callback belongs to
    the render before the reset and so keeps the pending SAN of that
    render. *)
Theorem X18_new_game (s : State) :
  let s' := step s ClickNewGame in
  (busy s = true -> s' = s) /\
  (busy s = false -> SpeechRecognition = true ->
   chessRef s' = newChess /\ moves s' = [] /\ busy s' = false
   /\ mode s' = Mode.MOVE /\ pendingSan s' = [] /\ status s' = StListening
   /\ live s' = true /\ recogRef s' = Some (onMove (renderOf s))
   /\ r_pendingSan (renderOf s) = pendingSan s
   /\ exists stops, Forall (fun e => e = Stopped) stops
        /\ effects s' = effects s ++ stops ++ [Spoken (str "New game. Your move.")]
                        ++ stops ++ [Started]).
Proof.
  cbv zeta. cbn [step]. split; [intros ->; reflexivity|].
  intros Hb Hsr. rewrite Hb. unfold newGame, startListeningForMove, renderOf.
  rewrite Hb. unfold startListeningInternal, newRecognizer, stopListening. rewrite Hsr.
  destruct (recogRef s) eqn:E; cbn; rewrite ?E; cbn; repeat split; trivial.
  - exists [Stopped]. split; [now repeat constructor|]. now rewrite <- !app_assoc.
  - exists []. split; [constructor|]. now rewrite <- !app_assoc.
Qed.

End Sessions.

Lemma X17_session_agrees_witness :
  let s := run (collaborators := Toy.collaborators)
             [ClickStart; RecogResult (str "e four")] init in
  busy s = false.
Proof.
  cbv zeta.
  pose proof (X17_session_agrees (collaborators := Toy.collaborators)
                [ClickStart; RecogResult (str "e four")]
                ltac:(vm_compute; repeat split)
                ltac:(vm_compute; reflexivity)) as [_ [H _]].
  exact H.
Defined.

Lemma X19_invariant_in_time_witness :
  let s := run (collaborators := Toy.collaborators)
             [ClickStart; RecogResult (str "e four")] init in
  pendingSan s <> [] <-> mode s = Mode.CONFIRM.
Proof.
  exact (X19_invariant_in_time (collaborators := Toy.collaborators)
           [ClickStart; RecogResult (str "e four")]
           ltac:(vm_compute; repeat split)).
Defined.

Lemma X18_new_game_witness :
  let s := run (collaborators := Toy.collaborators)
             [ClickStart; RecogResult (str "e four")] init in
  let s' := step s ClickNewGame in
  mode s' = Mode.MOVE /\ recogRef s' = Some (onMove (renderOf s)).
Proof.
  pose proof (proj2 (X18_new_game (collaborators := Toy.collaborators)
                       (run (collaborators := Toy.collaborators)
                          [ClickStart; RecogResult (str "e four")] init))
                ltac:(vm_compute; reflexivity) eq_refl)
    as [_ [_ [_ [H1 [_ [_ [_ [H2 _]]]]]]]].
  exact (conj H1 H2).
Defined.

(** ** Answers of recognizers that were replaced *)

Section LateAnswers.

Context {collaborators : Collaborators}.

(** X20: after any events, when a confirm recognizer that was replaced
    gives a transcript that is no command but gives a SAN, this SAN becomes
    the pending one, a confirm session is started and the mode stays as it
    is: in mode MOVE a SAN is then pending outside mode CONFIRM. *)
Theorem X20_late_new_move (events : list Event) (n : nat) (r : Render) (raw : jsstring) :
  let s := run events init in
  let s' := step s (RetiredResult n raw) in
  nth_error (retired s) n = Some (onConfirm r) ->
  interpretConfirmCommand raw = Cmd.UNKNOWN -> sanFromSpeech raw <> [] ->
  mode s' = mode s /\ pendingSan s' = sanFromSpeech raw
  /\ live s' = true /\ recogRef s' = Some (onConfirm r)
  /\ (mode s = Mode.MOVE -> ~ (pendingSan s' <> [] <-> mode s' = Mode.CONFIRM)).
Proof.
  intros s s' Hn Hcmd Hsan.
  destruct (sound_retired s n (onConfirm r) (run_sound events init init_sound) Hn)
    as [Hsr Hb].
  cbn in Hb.
  assert (Es : s' = confirmResult r raw s) by (unfold s'; cbn [step]; now rewrite Hn).
  destruct (confirmResult_new_move r raw s Hcmd Hsan Hb) as [Hm Hp].
  rewrite <- Es in Hm, Hp.
  refine (conj Hm (conj Hp (conj _ (conj _ _)))).
  - rewrite Es. unfold confirmResult. rewrite Hcmd.
    apply isEmpty_false in Hsan. rewrite Hsan. cbn [negb].
    unfold startListeningForConfirm, startListeningInternal. rewrite Hb, Hsr.
    reflexivity.
  - rewrite Es. unfold confirmResult. rewrite Hcmd.
    apply isEmpty_false in Hsan. rewrite Hsan. cbn [negb].
    unfold startListeningForConfirm, startListeningInternal. rewrite Hb, Hsr.
    reflexivity.
  - intros Hmove [H _]. rewrite Hm, Hp, Hmove in H. specialize (H Hsan). discriminate H.
Qed.

End LateAnswers.

Lemma X20_late_new_move_witness :
  let s := run (collaborators := Toy.collaborators)
             [ClickStart; RecogResult (str "e four"); ClickStart] init in
  let s' := step s (RetiredResult 1 (str "queen takes f seven mate")) in
  mode s' = Mode.MOVE /\ pendingSan s' = str "Qxf7#".
Proof.
  pose proof (X20_late_new_move (collaborators := Toy.collaborators)
                [ClickStart; RecogResult (str "e four"); ClickStart] 1
                {| r_busy := false; r_pendingSan := [] |}
                (str "queen takes f seven mate")
                ltac:(vm_compute; reflexivity) ltac:(vm_compute; reflexivity)
                ltac:(vm_compute; discriminate)) as [H1 [H2 _]].
  split.
  - etransitivity; [exact H1 | vm_compute; reflexivity].
  - etransitivity; [exact H2 | vm_compute; reflexivity].
Defined.
